(** * fraktalgenerator: the pixel pipeline of [nebula.js]

    A shallow embedding of the numeric core of the [FractalGenerator] class
    (escape-time iteration, colour conversion, blending, the fractal pass,
    the star pass and the two fog passes), followed by the properties of it
    that the specification states.

    JavaScript numbers are IEEE-754 doubles.  The code is written once, over
    an interface [JSNumber] of the operations the source applies to numbers,
    and read in two models:
    - [RNumber], the exact real numbers, an idealisation without rounding,
      in which the structure of the loops and the bounds are stated;
    - [FloatNumber], the binary64 floats of the kernel, the arithmetic of
      the source itself: there the source can be evaluated, NaN and the
      infinities exist, and the properties that turn on an exact
      cancellation (the identities of [blend]) are stated. *)

From Stdlib Require Import Floats String.
From Stdlib Require Import ZArith List Bool Arith Lia.
From Stdlib Require Import Reals Lra Zfloor.
Import ListNotations.

(** ** Numbers as the source uses them *)

Class JSNumber (T : Type) := {
  lit : Z -> T;                      (* an integer literal, or a counter used as a number *)
  nadd : T -> T -> T;                (* a + b *)
  nsub : T -> T -> T;                (* a - b *)
  nmul : T -> T -> T;                (* a * b *)
  ndiv : T -> T -> T;                (* a / b *)
  nrem : T -> T -> T;                (* a % b *)
  nltb : T -> T -> bool;             (* a < b *)
  nleb : T -> T -> bool;             (* a <= b *)
  neqb : T -> T -> bool;             (* a === b *)
  Math_sin : T -> T;
  Math_sqrt : T -> T;
  Math_floor : T -> T;
  Math_round : T -> T;
  Math_pow : T -> T -> T;            (* Math.pow(a, b) and a ** b *)
  Math_min : T -> T -> T;
  Math_max : T -> T -> T;
  toUint8Clamp : T -> T              (* the conversion of a store into a Uint8ClampedArray *)
}.

Arguments lit {T _} _%_Z.

(** The notations of the source.  A decimal constant is written as the
    quotient of two integer literals, 0.005 as [#5 / #1000]: in the reals
    this is the constant itself, and in binary64 it is the double that the
    parser of the source reads. *)
Declare Scope js_scope.
Delimit Scope js_scope with js.

Notation "# z" := (lit z) (at level 9, z at level 9, format "# z") : js_scope.
Notation "a + b" := (nadd a b) : js_scope.
Notation "a - b" := (nsub a b) : js_scope.
Notation "a * b" := (nmul a b) : js_scope.
Notation "a / b" := (ndiv a b) : js_scope.
Notation "a <? b" := (nltb a b) (at level 70, no associativity) : js_scope.
Notation "a >? b" := (nltb b a) (at level 70, no associativity) : js_scope.
Notation "a <=? b" := (nleb a b) (at level 70, no associativity) : js_scope.
Notation "a === b" := (neqb a b) (at level 70, no associativity) : js_scope.

(** ** The class [FractalGenerator] *)

Section Generator.

Context {T : Type} {JSN : JSNumber T}.
Local Open Scope js_scope.

(** An entry of [this.starPositions]. *)
Record Star := mkStar { star_x : T; star_y : T; star_radius : T }.

(** The fields of [this] that the constructor sets and no method changes;
    [noise2D] is the field made by [createNoise2D()]. *)
Record FractalGenerator := {
  width : nat;
  height : nat;
  maxIter : nat;
  zoom : T;
  offsetX : T;
  offsetY : T;
  baseHue : T;
  saturation : T;
  lightness : T;
  juliaParams_cx : T;
  juliaParams_cy : T;
  noise2D : T -> T -> T;
  minNoise : T;
  maxNoise : T;
  fogDensity : T;
  fogSize : T;
  fogLayerCount : nat;
  starClarity : T;
  keepBlackAreasClear : bool
}.

(** A loop counter or a size read as a number. *)
Definition num (n : nat) : T := #(Z.of_nat n).

(** [blend(bg, fg, alpha)] *)
Definition blend (bg fg alpha : T) : T := bg * (#1 - alpha) + fg * alpha.

(** The [while] loop of [mandelbrot], from the state [(zx, zy, iter)].
    [amp] is the amplitude of the perturbation, 0.005 in the source.  The
    loop runs at most [maxIter - iter] times, [fuel] bounds the number of
    its iterations. *)
Fixpoint mandelbrot_loop (amp : T) (cap : nat) (x y : T)
    (fuel : nat) (zx zy : T) (iter : nat) : nat :=
  match fuel with
  | O => iter
  | S fuel' =>
      if (zx * zx + zy * zy <? #4) && (iter <? cap)%nat then
        let xtemp := zx * zx - zy * zy + x in
        let zy := #2 * zx * zy + y in
        let zx := xtemp in
        let zx := zx + amp * Math_sin (zy * #3) in
        let zy := zy + amp * Math_sin (zx * #2) in
        mandelbrot_loop amp cap x y fuel' zx zy (S iter)
      else iter
  end.

(** [mandelbrot(x, y)] with a perturbation of amplitude [amp]. *)
Definition mandelbrot_with (amp : T) (g : FractalGenerator) (x y : T) : nat :=
  mandelbrot_loop amp (maxIter g) x y (maxIter g) #0 #0 0.

(** [mandelbrot(x, y)] *)
Definition mandelbrot (g : FractalGenerator) (x y : T) : nat :=
  mandelbrot_with (#5 / #1000) g x y.

(** The [while] loop of [julia]. *)
Fixpoint julia_loop (cap : nat) (cx cy : T)
    (fuel : nat) (zx zy : T) (iter : nat) : nat :=
  match fuel with
  | O => iter
  | S fuel' =>
      if (zx * zx + zy * zy <? #4) && (iter <? cap)%nat then
        let xtemp := zx * zx - zy * zy + cx in
        let zy := #2 * zx * zy + cy in
        let zx := xtemp in
        julia_loop cap cx cy fuel' zx zy (S iter)
      else iter
  end.

(** [julia(x, y, cx, cy)] *)
Definition julia (g : FractalGenerator) (x y cx cy : T) : nat :=
  julia_loop (maxIter g) cx cy (maxIter g) x y 0.

(** [hue2rgb], the arrow function local to [hslToRgb]. *)
Definition hue2rgb (p q t : T) : T :=
  let t := if t <? #0 then t + #1 else t in
  let t := if t >? #1 then t - #1 else t in
  if t <? #1 / #6 then p + (q - p) * #6 * t
  else if t <? #1 / #2 then q
  else if t <? #2 / #3 then p + (q - p) * (#2 / #3 - t) * #6
  else p.

(** [hslToRgb(h, s, l)] *)
Definition hslToRgb (h s l : T) : T * T * T :=
  let h := h / #360 in
  let s := s / #100 in
  let l := l / #100 in
  let '(r, g, b) :=
    if s === #0 then (l, l, l)
    else
      let q := if l <? #5 / #10 then l * (#1 + s) else l + s - l * s in
      let p := #2 * l - q in
      (hue2rgb p q (h + #1 / #3), hue2rgb p q h, hue2rgb p q (h - #1 / #3)) in
  (Math_round (r * #255), Math_round (g * #255), Math_round (b * #255)).

(** *** Arrays

    [imgData.data] is a [Uint8ClampedArray] of [width * height * 4] entries
    and [this.coloredAreas] an array of [width * height] booleans.  Every
    index the passes use is within the array; [list_set] leaves the list as
    it is at any other index, as a typed array does. *)

Fixpoint list_set {A : Type} (i : nat) (v : A) (l : list A) : list A :=
  match l, i with
  | [], _ => []
  | _ :: l', O => v :: l'
  | a :: l', S i' => a :: list_set i' v l'
  end.

(** [data[i]] *)
Definition get (data : list T) (i : nat) : T := nth i data #0.

(** [data[i] = v] *)
Definition put (data : list T) (i : nat) (v : T) : list T :=
  list_set i (toUint8Clamp v) data.

(** The part of [this] and of the canvas that the passes change. *)
Record Render := mkRender {
  data : list T;
  starPositions : list Star;
  coloredAreas : list bool
}.

(** [for (px ...) for (py ...)], the order of the two fog passes and of the
    background pass. *)
Definition forColumns {A : Type} (g : FractalGenerator)
    (body : nat -> nat -> A -> A) (a : A) : A :=
  fold_left (fun a px => fold_left (fun a py => body px py a) (seq 0 (height g)) a)
            (seq 0 (width g)) a.

(** [for (py ...) for (px ...)], the order of [drawFractal]. *)
Definition forRows {A : Type} (g : FractalGenerator)
    (body : nat -> nat -> A -> A) (a : A) : A :=
  fold_left (fun a py => fold_left (fun a px => body px py a) (seq 0 (width g)) a)
            (seq 0 (height g)) a.

(** The body of the pixel loop of [drawPerlinNoiseBackground]. *)
Definition backgroundPixel (g : FractalGenerator) (px py : nat) (data : list T) : list T :=
  let noiseValue :=
    fold_left (fun noiseValue layer =>
                 let freq := #2 / #1000 * Math_pow #2 (num layer) in
                 let amp := #4 / #10 / Math_pow #2 (num layer) in
                 noiseValue + noise2D g (num px * freq) (num py * freq) * amp)
              (seq 0 5) #0 in
  let variation := Math_max #0 (Math_min #1 ((noiseValue + #1) / #2)) in
  let fog := #15 + variation * #20 in
  let i := ((py * width g + px) * 4)%nat in
  let data := put data i (get data i + fog) in
  let data := put data (i + 1) (get data (i + 1) + fog) in
  let data := put data (i + 2) (get data (i + 2) + fog) in
  data.

(** [drawPerlinNoiseBackground()] *)
Definition drawPerlinNoiseBackground (g : FractalGenerator) (r : Render) : Render :=
  mkRender (forColumns g (backgroundPixel g) (data r)) (starPositions r) (coloredAreas r).

(** The [for (const star of this.starPositions)] loop of the two fog passes:
    [skipFog] after it. *)
Definition nearStar (stars : list Star) (px py : T) : bool :=
  existsb (fun star =>
             let distance :=
               Math_sqrt (Math_pow (px - star_x star) #2 + Math_pow (py - star_y star) #2) in
             distance <=? star_radius star)
          stars.

(** [skipFog] at the test [if (skipFog) continue], in both fog passes. *)
Definition skipFog (g : FractalGenerator) (r : Render) (px py : nat) : bool :=
  let pixelIndex := (py * width g + px)%nat in
  let skipFog := nearStar (starPositions r) (num px) (num py) in
  if keepBlackAreasClear g && negb (nth pixelIndex (coloredAreas r) false)
  then true else skipFog.

(** [noiseSum] after the layer loop of [applyFogLayer]. *)
Definition fogNoiseSum (g : FractalGenerator) (px py : nat) : T :=
  fold_left (fun noiseSum layer =>
               let frequency := fogSize g * Math_pow #2 (num layer) in
               let amplitude := #1 / Math_pow #2 (num layer) in
               noiseSum + noise2D g (num px * frequency) (num py * frequency) * amplitude)
            (seq 0 (fogLayerCount g)) #0.

(** [fogIntensity] in [applyFogLayer]. *)
Definition fogIntensity (g : FractalGenerator) (px py : nat) : T :=
  (fogNoiseSum g px py + #1) / #2.

(** The body of the pixel loop of [applyFogLayer]. *)
Definition fogPixel (g : FractalGenerator) (r : Render) (px py : nat) (data : list T) : list T :=
  let pixelIndex := (py * width g + px)%nat in
  if skipFog g r px py then data
  else
    let fogIntensity := fogIntensity g px py in
    let i := (pixelIndex * 4)%nat in
    let baseColor := (get data i, get data (i + 1), get data (i + 2)) in
    let fogColor :=
      (Math_min #255 (fst (fst baseColor) + #40),
       Math_min #255 (snd (fst baseColor) + #40),
       Math_min #255 (snd baseColor + #60)) in
    let alpha := fogIntensity * fogDensity g in
    let data := put data i (blend (get data i) (fst (fst fogColor)) alpha) in
    let data := put data (i + 1) (blend (get data (i + 1)) (snd (fst fogColor)) alpha) in
    let data := put data (i + 2) (blend (get data (i + 2)) (snd fogColor) alpha) in
    data.

(** [applyFogLayer()].  [this.starPositions] and [this.coloredAreas] are set
    by the constructor, so the two guards at its head do nothing. *)
Definition applyFogLayer (g : FractalGenerator) (r : Render) : Render :=
  mkRender (forColumns g (fogPixel g r) (data r)) (starPositions r) (coloredAreas r).

(** The body of the pixel loop at the end of [render]. *)
Definition softFogPixel (g : FractalGenerator) (r : Render) (px py : nat) (data : list T) : list T :=
  let pixelIndex := (py * width g + px)%nat in
  if negb (skipFog g r px py) then
    let i := (pixelIndex * 4)%nat in
    let noise := noise2D g (num px * (#5 / #1000)) (num py * (#5 / #1000)) * (#5 / #10) + #5 / #10 in
    let fogAmount := noise * #12 in
    let data := put data i (Math_min #255 (get data i + fogAmount)) in
    let data := put data (i + 1) (Math_min #255 (get data (i + 1) + fogAmount)) in
    let data := put data (i + 2) (Math_min #255 (get data (i + 2) + fogAmount)) in
    data
  else data.

(** The final soft-fog pass, the pixel loop at the end of [render]. *)
Definition softFogPass (g : FractalGenerator) (r : Render) : Render :=
  mkRender (forColumns g (softFogPixel g r) (data r)) (starPositions r) (coloredAreas r).

(** The conditional [type === "julia" ? this.julia(...) : this.mandelbrot(x, y)],
    which [drawFractal] and [drawStarsInFractal] share. *)
Definition iterations (g : FractalGenerator) (type : String.string) (x y : T) : nat :=
  if String.eqb type "julia"%string
  then julia g x y (juliaParams_cx g) (juliaParams_cy g)
  else mandelbrot g x y.

(** [x] and [y] of a pixel, as both passes compute them. *)
Definition planeX (g : FractalGenerator) (px : T) : T :=
  (px - num (width g) / #2) / zoom g + offsetX g.

Definition planeY (g : FractalGenerator) (py : T) : T :=
  (py - num (height g) / #2) / zoom g + offsetY g.

(** [mask], [fade] and [isColored] of a pixel of [drawFractal]. *)
Definition maskOf (g : FractalGenerator) (iter : nat) : T := num iter / num (maxIter g).

Definition fadeOf (g : FractalGenerator) (iter : nat) : T :=
  #1 - Math_pow (maskOf g iter) (#15 / #10).

Definition isColoredOf (g : FractalGenerator) (iter : nat) : bool :=
  (iter <? maxIter g)%nat && (fadeOf g iter >? #1 / #100).

(** [fogMod] of a pixel of [drawFractal], after [fogMod /= 1.875]. *)
Definition fogModOf (g : FractalGenerator) (px py : nat) : T :=
  let fogX := num px * (#3 / #100) in
  let fogY := num py * (#3 / #100) in
  let fogMod :=
    fold_left (fun fogMod layer =>
                 let freq := #1 / #100 * Math_pow #2 (num layer) in
                 fogMod + (noise2D g (fogX * freq) (fogY * freq) * (#5 / #10) + #5 / #10)
                          / (num layer + #1))
              (seq 0 3) #0 in
  fogMod / (#1875 / #1000).

(** The body of the pixel loop of [drawFractal], on [data] and
    [this.coloredAreas]. *)
Definition fractalPixel (g : FractalGenerator) (type : String.string) (px py : nat)
    (dc : list T * list bool) : list T * list bool :=
  let '(data, colored) := dc in
  let complementaryHue := nrem (baseHue g + #180) #360 in
  let x := planeX g (num px) in
  let y := planeY g (num py) in
  let iter := iterations g type x y in
  let mask := maskOf g iter in
  let fade := fadeOf g iter in
  let isColored := isColoredOf g iter in
  let colored := list_set (py * width g + px) isColored colored in
  if fade <? #1 / #100 then (data, colored)
  else
    let i := ((py * width g + px) * 4)%nat in
    let fogMod := fogModOf g px py in
    let hue := nrem ((#1 - mask) * baseHue g + mask * complementaryHue) #360 in
    let sat := Math_max #20 (saturation g + mask * #25) in
    let light := lightness g + mask * #35 + fogMod * #10 in
    let '(r, g', b) := hslToRgb hue sat light in
    let alpha := #7 / #10 * fade in
    let data := put data i (blend (get data i) r alpha) in
    let data := put data (i + 1) (blend (get data (i + 1)) g' alpha) in
    let data := put data (i + 2) (blend (get data (i + 2)) b alpha) in
    if (mask >? minNoise g) && (mask <? maxNoise g) then
      let fogStrength := #200 + fogMod * #55 in
      let fogAlpha := (#1 - mask) * (#35 / #100) in
      let data := put data i (blend (get data i) fogStrength fogAlpha) in
      let data := put data (i + 1) (blend (get data (i + 1)) fogStrength fogAlpha) in
      let data := put data (i + 2) (blend (get data (i + 2)) fogStrength fogAlpha) in
      (data, colored)
    else (data, colored).

(** [drawFractal(type)] *)
Definition drawFractal (g : FractalGenerator) (type : String.string) (r : Render) : Render :=
  let colored := repeat false (width g * height g) in
  let '(data, colored) := forRows g (fractalPixel g type) (data r, colored) in
  mkRender data (starPositions r) colored.

(** *** The star pass

    [Math.random()] is read from a stream [rnd], [rng] counting the calls
    made so far.  What the pass paints on the canvas is kept as the list of
    its fills. *)

Inductive Fill :=
  | FillGlow (px py radius : T)                 (* the radial gradient *)
  | FillDisk (px py size : T) (brighter : bool).  (* the star itself *)

Record StarLoop := mkStarLoop {
  starsPlotted : nat;
  attempts : nat;
  positions : list Star;   (* the local [starPositions] *)
  fills : list Fill;
  rng : nat
}.

Definition maxStars : nat := 300.

(** The condition of the [while] loop of [drawStarsInFractal]. *)
Definition starLoopRuns (s : StarLoop) : bool :=
  (starsPlotted s <? maxStars)%nat && (attempts s <? maxStars * 10)%nat.

(** The body of the [while] loop of [drawStarsInFractal]. *)
Definition starAttempt (g : FractalGenerator) (type : String.string) (rnd : nat -> T)
    (s : StarLoop) : StarLoop :=
  let px := Math_floor (rnd (rng s) * num (width g)) in
  let py := Math_floor (rnd (rng s + 1)%nat * num (height g)) in
  let x := planeX g px in
  let y := planeY g py in
  let iter := iterations g type x y in
  if (iter =? maxIter g)%nat then
    let size := rnd (rng s + 2)%nat * (#14 / #10) in
    let brighterStar := rnd (rng s + 3)%nat >? #6 / #10 in
    let glowSize := if brighterStar then #6 else #4 in
    let glow := rnd (rng s + 4)%nat >? #3 / #10 in
    let star := mkStar px py (if glow then size * glowSize * (#12 / #10) else size * #2) in
    let halo := if glow then [FillGlow px py (size * glowSize)] else [] in
    mkStarLoop (S (starsPlotted s)) (S (attempts s))
               (positions s ++ [star])
               (fills s ++ halo ++ [FillDisk px py size brighterStar])
               (rng s + 5)
  else
    mkStarLoop (starsPlotted s) (S (attempts s)) (positions s) (fills s) (rng s + 2).

(** The [while] loop of [drawStarsInFractal]; it runs at most
    [maxStars * 10 - attempts] times. *)
Fixpoint starLoop (g : FractalGenerator) (type : String.string) (rnd : nat -> T)
    (fuel : nat) (s : StarLoop) : StarLoop :=
  match fuel with
  | O => s
  | S fuel' =>
      if starLoopRuns s then starLoop g type rnd fuel' (starAttempt g type rnd s)
      else s
  end.

(** [drawStarsInFractal(type)], up to the canvas: the state of the loop at
    its exit. *)
Definition drawStarsLoop (g : FractalGenerator) (type : String.string) (rnd : nat -> T) : StarLoop :=
  starLoop g type rnd (maxStars * 10) (mkStarLoop 0 0 [] [] 0).

(** [drawStarsInFractal(type)]; [paint] is the canvas, which rasterises the
    fills onto the pixels. *)
Definition drawStarsInFractal (g : FractalGenerator) (type : String.string) (rnd : nat -> T)
    (paint : list Fill -> list T -> list T) (r : Render) : Render :=
  let s := drawStarsLoop g type rnd in
  mkRender (paint (fills s) (data r)) (positions s) (coloredAreas r).

(** [render(type, ...)], up to the PNG stream: [fillRect] with
    ["rgb(0, 0, 10)"], then the five passes. *)
Definition render (g : FractalGenerator) (type : String.string) (rnd : nat -> T)
    (paint : list Fill -> list T -> list T) : Render :=
  let blank := concat (repeat [#0; #0; #10; #255] (width g * height g)) in
  let r := mkRender blank [] [] in
  let r := drawPerlinNoiseBackground g r in
  let r := drawFractal g type r in
  let r := drawStarsInFractal g type rnd paint r in
  let r := applyFogLayer g r in
  softFogPass g r.

End Generator.

Arguments FractalGenerator T : clear implicits.
Arguments Star T : clear implicits.
Arguments Render T : clear implicits.
Arguments StarLoop T : clear implicits.
Arguments Fill T : clear implicits.

(** ** The states at the head of the star loop *)

Section StarStates.

Context {T : Type} {JSN : JSNumber T}.
Local Open Scope js_scope.

Variables (g : FractalGenerator T) (type : String.string) (rnd : nat -> T).

(** The coordinate that the round from [s] samples, and its iteration
    count. *)
Definition sampledX (s : StarLoop T) : T := Math_floor (rnd (rng s) * num (width g)).
Definition sampledY (s : StarLoop T) : T := Math_floor (rnd (rng s + 1)%nat * num (height g)).
Definition sampledIter (s : StarLoop T) : nat :=
  iterations g type (planeX g (sampledX s)) (planeY g (sampledY s)).

(** The states in which the condition of the [while] loop is evaluated. *)
Inductive Reached : StarLoop T -> Prop :=
  | Reached_start : Reached (mkStarLoop 0 0 [] [] 0)
  | Reached_next (s : StarLoop T) :
      Reached s -> starLoopRuns s = true -> Reached (starAttempt g type rnd s).

(** What the loop keeps: the counters are within their bounds, and count the
    stars recorded. *)
Definition starLoopBounds (s : StarLoop T) : Prop :=
  (starsPlotted s <= maxStars)%nat
  /\ (attempts s <= maxStars * 10)%nat
  /\ length (positions s) = starsPlotted s.

End StarStates.

(** ** The model in the real numbers *)

Module RealModel.

Local Open Scope R_scope.

Definition R_ltb (a b : R) : bool := if Rlt_dec a b then true else false.
Definition R_leb (a b : R) : bool := if Rle_dec a b then true else false.
Definition R_eqb (a b : R) : bool := if Req_dec_T a b then true else false.

(** [a % b] keeps the sign of [a]: the quotient is truncated towards zero. *)
Definition R_trunc (a : R) : Z := if Rle_dec 0 a then Zfloor a else Zceil a.
Definition R_rem (a b : R) : R := a - b * IZR (R_trunc (a / b)).

(** [Math.round] rounds a half upwards. *)
Definition R_round (a : R) : R := IZR (Zfloor (a + / 2)).

(** [Math.pow(a, b)] where it is a number: [b] an integer, or [a] not
    negative. *)
Definition R_pow (a b : R) : R :=
  if Req_dec_T (IZR (Zfloor b)) b then powerRZ a (Zfloor b)
  else if Rlt_dec 0 a then Rpower a b
  else 0.

(** The store into a [Uint8ClampedArray]: clamped to [0, 255], then rounded
    to the nearest integer, a half to the even one. *)
Definition R_toUint8Clamp (a : R) : R :=
  if Rle_dec a 0 then 0
  else if Rle_dec 255 a then 255
  else
    let f := Zfloor a in
    if Rlt_dec (a - IZR f) (/ 2) then IZR f
    else if Rlt_dec (/ 2) (a - IZR f) then IZR (f + 1)
    else if Z.even f then IZR f else IZR (f + 1).

#[export] Instance RNumber : JSNumber R := {|
  lit := IZR;
  nadd := Rplus;
  nsub := Rminus;
  nmul := Rmult;
  ndiv := Rdiv;
  nrem := R_rem;
  nltb := R_ltb;
  nleb := R_leb;
  neqb := R_eqb;
  Math_sin := sin;
  Math_sqrt := sqrt;
  Math_floor := fun a => IZR (Zfloor a);
  Math_round := R_round;
  Math_pow := R_pow;
  Math_min := Rmin;
  Math_max := Rmax;
  toUint8Clamp := R_toUint8Clamp
|}.

End RealModel.

(** ** The model in binary64 *)

Module FloatModel.

(** The functions of the platform that the kernel's floats do not have. *)
Record Platform := {
  f_rem : float -> float -> float;
  f_sin : float -> float;
  f_floor : float -> float;
  f_round : float -> float;
  f_pow : float -> float -> float;
  f_min : float -> float -> float;
  f_max : float -> float -> float;
  f_toUint8Clamp : float -> float
}.

(** The double nearest to an integer. *)
Definition float_lit (z : Z) : float := SF2Prim (binary_normalize prec emax z 0 false).

#[export] Instance FloatNumber (P : Platform) : JSNumber float := {|
  lit := float_lit;
  nadd := PrimFloat.add;
  nsub := PrimFloat.sub;
  nmul := PrimFloat.mul;
  ndiv := PrimFloat.div;
  nrem := f_rem P;
  nltb := PrimFloat.ltb;
  nleb := PrimFloat.leb;
  neqb := PrimFloat.eqb;
  Math_sin := f_sin P;
  Math_sqrt := PrimFloat.sqrt;
  Math_floor := f_floor P;
  Math_round := f_round P;
  Math_pow := f_pow P;
  Math_min := f_min P;
  Math_max := f_max P;
  toUint8Clamp := f_toUint8Clamp P
|}.

End FloatModel.

(** ** What the specification says, in its own words *)

Module Spec.

Local Open Scope R_scope.

(** A point of the plane is inside the escape radius when zx^2 + zy^2 < 4. *)
Definition inDisk (z : R * R) : Prop := fst z ^ 2 + snd z ^ 2 < 4.

(** One step of the Mandelbrot recurrence at (x, y), followed by the two
    perturbations in sequence, of amplitude [amp]. *)
Definition mandelStep (amp x y : R) (z : R * R) : R * R :=
  let zx' := fst z ^ 2 - snd z ^ 2 + x in
  let zy' := 2 * fst z * snd z + y in
  let zx'' := zx' + amp * sin (3 * zy') in
  let zy'' := zy' + amp * sin (2 * zx'') in
  (zx'', zy'').

(** One step of the Julia recurrence of constant (cx, cy). *)
Definition juliaStep (cx cy : R) (z : R * R) : R * R :=
  (fst z ^ 2 - snd z ^ 2 + cx, 2 * fst z * snd z + cy).

(** The point after [n] steps from [z0]. *)
Fixpoint orbit (step : R * R -> R * R) (z0 : R * R) (n : nat) : R * R :=
  match n with
  | O => z0
  | S n' => step (orbit step z0 n')
  end.

(** [n] is the number of completed iterations under the cap: the first [n]
    points of the orbit are inside the disk and, below the cap, the next one
    is not. *)
Definition completedIterations (step : R * R -> R * R) (z0 : R * R)
    (cap n : nat) : Prop :=
  (n <= cap)%nat /\
  (forall k, (k < n)%nat -> inDisk (orbit step z0 k)) /\
  ((n < cap)%nat -> ~ inDisk (orbit step z0 n)).

(** The point never escapes under the cap. *)
Definition neverEscapes (step : R * R -> R * R) (z0 : R * R) (cap : nat) : Prop :=
  forall k, (k < cap)%nat -> inDisk (orbit step z0 k).

(** m to the power 1.5, for m >= 0. *)
Definition pow15 (m : R) : R := m * sqrt m.

(** The fade of a pixel: 1 - mask^1.5, where mask = iter / cap. *)
Definition fade (iter cap : nat) : R := 1 - pow15 (INR iter / INR cap).

(** The glow multiplier of a star: 6 for a brighter star, 4 otherwise. *)
Definition glowMultiplier (brighter : bool) : R := if brighter then 6 else 4.

(** The exclusion radius of a star. *)
Definition exclusionRadius (size : R) (brighter glow : bool) : R :=
  if glow then size * glowMultiplier brighter * 1.2 else size * 2.

End Spec.

(** ** The reference configuration

    The default answers of the prompt: 800 x 800 pixels, 100 iterations,
    zoom 300, offset (-0.75, 0), hue 200, fog of 5 layers.  The noise field
    of the sample is flat. *)

Definition sampleGenerator : FractalGenerator R := {|
  width := 800;
  height := 800;
  maxIter := 100;
  zoom := 300;
  offsetX := -0.75;
  offsetY := 0;
  baseHue := 200;
  saturation := 70;
  lightness := 30;
  juliaParams_cx := -0.8;
  juliaParams_cy := 0.156;
  noise2D := fun _ _ => 0%R;
  minNoise := 0.2;
  maxNoise := 0.8;
  fogDensity := 0.4;
  fogSize := 0.01;
  fogLayerCount := 5;
  starClarity := 1;
  keepBlackAreasClear := true
|}%R.

(** The reference configuration over a noise field that is 1 everywhere. *)
Definition brightGenerator : FractalGenerator R := {|
  width := 800;
  height := 800;
  maxIter := 100;
  zoom := 300;
  offsetX := -0.75;
  offsetY := 0;
  baseHue := 200;
  saturation := 70;
  lightness := 30;
  juliaParams_cx := -0.8;
  juliaParams_cy := 0.156;
  noise2D := fun _ _ => 1%R;
  minNoise := 0.2;
  maxNoise := 0.8;
  fogDensity := 0.4;
  fogSize := 0.01;
  fogLayerCount := 5;
  starClarity := 1;
  keepBlackAreasClear := true
|}%R.

(** A canvas of 4 x 4 pixels whose pixel (2, 2) is the origin of the plane,
    under the Julia constant (0, 0) and a cap of 3: there the orbit stays at
    the origin. *)
Definition stillGenerator : FractalGenerator R := {|
  width := 4;
  height := 4;
  maxIter := 3;
  zoom := 1;
  offsetX := 0;
  offsetY := 0;
  baseHue := 200;
  saturation := 70;
  lightness := 30;
  juliaParams_cx := 0;
  juliaParams_cy := 0;
  noise2D := fun _ _ => 0%R;
  minNoise := 0.2;
  maxNoise := 0.8;
  fogDensity := 0.4;
  fogSize := 0.01;
  fogLayerCount := 5;
  starClarity := 1;
  keepBlackAreasClear := true
|}%R.

(** A canvas of 4 x 4 pixels, dark blue, all of it coloured, with one star
    of radius 1 at (1, 1). *)
Definition sampleRender : Render R := {|
  data := concat (repeat [0; 0; 10; 255]%R 16);
  starPositions := [mkStar 1%R 1%R 1%R];
  coloredAreas := repeat true 16
|}.

(** The escape-time loop that [mandelbrot] and [julia] share, over a step
    function. *)
Fixpoint countLoop (step : R * R -> R * R) (cap fuel : nat) (z : R * R) (iter : nat) : nat :=
  match fuel with
  | O => iter
  | S fuel' =>
      if RealModel.R_ltb (fst z * fst z + snd z * snd z) 4 && (iter <? cap)%nat
      then countLoop step cap fuel' (step z) (S iter)
      else iter
  end.

(** A double that is NaN or an infinity, read on its specification. *)
Definition nonFinite (a : float) : Prop :=
  Prim2SF a = S754_nan \/ exists s, Prim2SF a = S754_infinity s.

(** A double that is NaN or the positive infinity. *)
Definition nanOrPosInf (a : float) : Prop :=
  Prim2SF a = S754_nan \/ Prim2SF a = S754_infinity false.

(** A platform to evaluate the loops on coordinates that are not finite:
    there [Math.sin] is NaN, as ECMAScript has it, and no other function of
    the platform is called. *)
Definition nanPlatform : FloatModel.Platform := {|
  FloatModel.f_rem := fun _ _ => nan;
  FloatModel.f_sin := fun _ => nan;
  FloatModel.f_floor := fun _ => nan;
  FloatModel.f_round := fun _ => nan;
  FloatModel.f_pow := fun _ _ => nan;
  FloatModel.f_min := fun _ _ => nan;
  FloatModel.f_max := fun _ _ => nan;
  FloatModel.f_toUint8Clamp := fun _ => nan
|}.

(** The reference configuration in binary64, with a zoom of zero. *)
#[warnings="-inexact-float"]
Definition zeroZoomGenerator : FractalGenerator float := {|
  width := 800;
  height := 800;
  maxIter := 100;
  zoom := 0;
  offsetX := -0.75;
  offsetY := 0;
  baseHue := 200;
  saturation := 70;
  lightness := 30;
  juliaParams_cx := -0.8;
  juliaParams_cy := 0.156;
  noise2D := fun _ _ => 0%float;
  minNoise := 0.2;
  maxNoise := 0.8;
  fogDensity := 0.4;
  fogSize := 0.01;
  fogLayerCount := 5;
  starClarity := 1;
  keepBlackAreasClear := true
|}%float.

(** ** What each pass writes to a pixel

    The values that the bodies of the pixel loops compute, named: each is
    the expression of the source at the place its comment gives. *)

Section PixelValues.

Context {T : Type} {JSN : JSNumber T}.
Local Open Scope js_scope.

(** [fog] of a pixel of [drawPerlinNoiseBackground]. *)
Definition backgroundFogOf (g : FractalGenerator T) (px py : nat) : T :=
  let noiseValue :=
    fold_left (fun noiseValue layer =>
                 let freq := #2 / #1000 * Math_pow #2 (num layer) in
                 let amp := #4 / #10 / Math_pow #2 (num layer) in
                 noiseValue + noise2D g (num px * freq) (num py * freq) * amp)
              (seq 0 5) #0 in
  let variation := Math_max #0 (Math_min #1 ((noiseValue + #1) / #2)) in
  #15 + variation * #20.

(** What [applyFogLayer] adds to the channel [c] of [baseColor] to make
    [fogColor]: 40, 40 and 60. *)
Definition fogTint (c : nat) : T :=
  match c with
  | 2%nat => #60
  | _ => #40
  end.

(** What [applyFogLayer] stores in the channel [c] of a pixel it does not
    skip, where the channel held [v]. *)
Definition fogLayerValue (g : FractalGenerator T) (px py c : nat) (v : T) : T :=
  blend v (Math_min #255 (v + fogTint c)) (fogIntensity g px py * fogDensity g).

(** [fogAmount] of a pixel of the final pass of [render]. *)
Definition softFogAmountOf (g : FractalGenerator T) (px py : nat) : T :=
  (noise2D g (num px * (#5 / #1000)) (num py * (#5 / #1000)) * (#5 / #10) + #5 / #10) * #12.

End PixelValues.

(** ** Properties *)

Section PassProperties.

(** A property that every round of a loop keeps holds at its end. *)
Lemma fold_left_keeps {A B : Type} (f : A -> B -> A) (P : A -> Prop) (l : list B) :
  forall a, P a -> (forall a b, In b l -> P a -> P (f a b)) -> P (fold_left f l a).
Proof.
  induction l as [|b l IH]; intros a Ha Hstep; simpl; [exact Ha|].
  apply IH.
  - apply Hstep; [now left | exact Ha].
  - intros a' b' Hin; apply Hstep; now right.
Qed.

(** Under an invariant [I], a property that the round of [q] sets up, and
    every round keeps, holds at the end of the loop. *)
Lemma fold_left_sets {A B : Type} (f : A -> B -> A) (I P : A -> Prop) (l : list B) (q : B) :
  In q l ->
  (forall a b, In b l -> I a -> I (f a b)) ->
  (forall a, I a -> P (f a q)) ->
  (forall a b, In b l -> I a -> P a -> P (f a b)) ->
  forall a, I a -> P (fold_left f l a).
Proof.
  intros Hin HI Hq Hstep a Ha.
  destruct (in_split _ _ Hin) as (l1 & l2 & ->).
  rewrite fold_left_app; simpl.
  assert (HI1 : I (fold_left f l1 a)).
  { apply fold_left_keeps; [exact Ha|].
    intros a' b' Hb; apply HI. apply in_or_app; now left. }
  enough (I (fold_left f l2 (f (fold_left f l1 a) q))
          /\ P (fold_left f l2 (f (fold_left f l1 a) q))) by tauto.
  apply (fold_left_keeps f (fun a => I a /\ P a)).
  - split; [apply HI; [apply in_or_app; right; now left | exact HI1] | now apply Hq].
  - intros a' b' Hb [Ha' Hp].
    assert (In b' (l1 ++ q :: l2)) by (apply in_or_app; right; now right).
    split; [now apply HI | now apply Hstep].
Qed.

Context {T : Type} {JSN : JSNumber T}.

Lemma forColumns_keeps {A : Type} (g : FractalGenerator T)
    (body : nat -> nat -> A -> A) (P : A -> Prop) (a : A) :
  P a ->
  (forall px py a, (px < width g)%nat -> (py < height g)%nat -> P a -> P (body px py a)) ->
  P (forColumns g body a).
Proof.
  intros Ha Hbody. unfold forColumns.
  apply fold_left_keeps; [exact Ha|].
  intros a1 px Hpx Ha1. apply fold_left_keeps; [exact Ha1|].
  intros a2 py Hpy Ha2. apply in_seq in Hpx, Hpy. apply Hbody; [lia | lia | exact Ha2].
Qed.

Lemma forRows_keeps {A : Type} (g : FractalGenerator T)
    (body : nat -> nat -> A -> A) (P : A -> Prop) (a : A) :
  P a ->
  (forall px py a, (px < width g)%nat -> (py < height g)%nat -> P a -> P (body px py a)) ->
  P (forRows g body a).
Proof.
  intros Ha Hbody. unfold forRows.
  apply fold_left_keeps; [exact Ha|].
  intros a1 py Hpy Ha1. apply fold_left_keeps; [exact Ha1|].
  intros a2 px Hpx Ha2. apply in_seq in Hpx, Hpy. apply Hbody; [lia | lia | exact Ha2].
Qed.

Lemma forRows_sets {A : Type} (g : FractalGenerator T)
    (body : nat -> nat -> A -> A) (I P : A -> Prop) (qx qy : nat) (a : A) :
  (qx < width g)%nat -> (qy < height g)%nat ->
  (forall px py a, (px < width g)%nat -> (py < height g)%nat -> I a -> I (body px py a)) ->
  (forall a, I a -> P (body qx qy a)) ->
  (forall px py a, (px < width g)%nat -> (py < height g)%nat ->
                   I a -> P a -> P (body px py a)) ->
  I a -> P (forRows g body a).
Proof.
  intros Hqx Hqy HI Hq Hstep Ha. unfold forRows.
  assert (Hrow : forall py a, (py < height g)%nat -> I a ->
            I (fold_left (fun a px => body px py a) (seq 0 (width g)) a)).
  { intros py a' Hpy Ha'. apply fold_left_keeps; [exact Ha'|].
    intros a2 px Hpx Ha2. apply in_seq in Hpx. apply HI; [lia | lia | exact Ha2]. }
  apply (fold_left_sets _ I P _ qy); [apply in_seq; lia | | | | exact Ha].
  - intros a' py Hpy Ha'. apply in_seq in Hpy. apply Hrow; [lia | exact Ha'].
  - intros a' Ha'.
    apply (fold_left_sets (fun a px => body px qy a) I P _ qx);
      [apply in_seq; lia | | | | exact Ha'].
    + intros a2 px Hpx Ha2. apply in_seq in Hpx. apply HI; [lia | lia | exact Ha2].
    + exact Hq.
    + intros a2 px Hpx Ha2 Hp. apply in_seq in Hpx. apply Hstep; [lia | lia | exact Ha2 | exact Hp].
  - intros a' py Hpy Ha' Hp. apply in_seq in Hpy.
    enough (I (fold_left (fun a px => body px py a) (seq 0 (width g)) a')
            /\ P (fold_left (fun a px => body px py a) (seq 0 (width g)) a')) by tauto.
    apply (fold_left_keeps _ (fun a => I a /\ P a)); [tauto|].
    intros a2 px Hpx [Ha2 Hp2]. apply in_seq in Hpx.
    split; [apply HI | apply Hstep]; auto; lia.
Qed.

(** *** Arrays *)

Lemma list_set_length {A : Type} (i : nat) (v : A) (l : list A) :
  length (list_set i v l) = length l.
Proof.
  revert i; induction l as [|a l IH]; intros [|i]; simpl; auto.
Qed.

Lemma nth_list_set_ne {A : Type} (i j : nat) (v d : A) (l : list A) :
  i <> j -> nth j (list_set i v l) d = nth j l d.
Proof.
  revert i j; induction l as [|a l IH]; intros [|i] [|j] Hne; simpl; auto; try lia.
Qed.

Lemma nth_list_set_eq {A : Type} (i : nat) (v d : A) (l : list A) :
  (i < length l)%nat -> nth i (list_set i v l) d = v.
Proof.
  revert i; induction l as [|a l IH]; intros [|i] Hi; simpl in *; auto; try lia.
  apply IH; lia.
Qed.

Lemma get_put_ne (data : list T) (i j : nat) (v : T) :
  i <> j -> get (put data i v) j = get data j.
Proof. intros H. unfold get, put. now apply nth_list_set_ne. Qed.

(** Two pixels of a row-major grid that share an index are the same pixel. *)
Lemma pixel_index_inj (w px py qx qy : nat) :
  (px < w)%nat -> (qx < w)%nat ->
  (py * w + px = qy * w + qx)%nat -> px = qx /\ py = qy.
Proof.
  intros Hp Hq E.
  assert (py = qy) by nia.
  subst. split; [lia | reflexivity].
Qed.

(** The channels of a pixel are not those of another pixel. *)
Lemma channel_apart (w px py qx qy k c : nat) :
  (px < w)%nat -> (qx < w)%nat -> (k < 4)%nat -> (c < 4)%nat ->
  ~ (px = qx /\ py = qy) ->
  ((py * w + px) * 4 + k <> (qy * w + qx) * 4 + c)%nat.
Proof.
  intros Hp Hq Hk Hc Hne E.
  apply Hne, (pixel_index_inj w); [assumption | assumption | lia].
Qed.

(** *** The two fog passes write the pixels they do not skip, and no other *)

Lemma fogPixel_frame (g : FractalGenerator T) (r : Render T)
    (px py qx qy c : nat) (data : list T) :
  (px < width g)%nat -> (qx < width g)%nat -> (c < 4)%nat ->
  skipFog g r qx qy = true ->
  get (fogPixel g r px py data) ((qy * width g + qx) * 4 + c)
  = get data ((qy * width g + qx) * 4 + c).
Proof.
  intros Hp Hq Hc Hskip. unfold fogPixel.
  destruct (skipFog g r px py) eqn:E; [reflexivity|].
  assert (Hne : ~ (px = qx /\ py = qy)) by (intros [-> ->]; congruence).
  cbv zeta.
  rewrite !get_put_ne; [reflexivity | | | ].
  - replace ((py * width g + px) * 4)%nat with ((py * width g + px) * 4 + 0)%nat by lia.
    apply channel_apart; auto; lia.
  - apply channel_apart; auto; lia.
  - apply channel_apart; auto; lia.
Qed.

Lemma softFogPixel_frame (g : FractalGenerator T) (r : Render T)
    (px py qx qy c : nat) (data : list T) :
  (px < width g)%nat -> (qx < width g)%nat -> (c < 4)%nat ->
  skipFog g r qx qy = true ->
  get (softFogPixel g r px py data) ((qy * width g + qx) * 4 + c)
  = get data ((qy * width g + qx) * 4 + c).
Proof.
  intros Hp Hq Hc Hskip. unfold softFogPixel.
  destruct (skipFog g r px py) eqn:E; [reflexivity|].
  assert (Hne : ~ (px = qx /\ py = qy)) by (intros [-> ->]; congruence).
  cbn [negb]. cbv zeta.
  rewrite !get_put_ne; [reflexivity | | | ].
  - replace ((py * width g + px) * 4)%nat with ((py * width g + px) * 4 + 0)%nat by lia.
    apply channel_apart; auto; lia.
  - apply channel_apart; auto; lia.
  - apply channel_apart; auto; lia.
Qed.

(** A pixel that a fog pass skips keeps its channels through the pass. *)
Lemma fog_passes_skip (g : FractalGenerator T) (r : Render T) (qx qy c : nat) :
  (qx < width g)%nat -> (c < 4)%nat ->
  skipFog g r qx qy = true ->
  get (data (applyFogLayer g r)) ((qy * width g + qx) * 4 + c)
  = get (data r) ((qy * width g + qx) * 4 + c)
  /\ get (data (softFogPass g r)) ((qy * width g + qx) * 4 + c)
     = get (data r) ((qy * width g + qx) * 4 + c).
Proof.
  intros Hq Hc Hskip. split.
  - unfold applyFogLayer; cbn [data].
    apply (forColumns_keeps g (fogPixel g r)
             (fun d => get d ((qy * width g + qx) * 4 + c)
                       = get (data r) ((qy * width g + qx) * 4 + c)));
      [reflexivity|].
    intros px py d Hpx _ Hd. rewrite <- Hd. now apply fogPixel_frame.
  - unfold softFogPass; cbn [data].
    apply (forColumns_keeps g (softFogPixel g r)
             (fun d => get d ((qy * width g + qx) * 4 + c)
                       = get (data r) ((qy * width g + qx) * 4 + c)));
      [reflexivity|].
    intros px py d Hpx _ Hd. rewrite <- Hd. now apply softFogPixel_frame.
Qed.

(** *** The fractal pass *)

Lemma fractalPixel_colored (g : FractalGenerator T) (type : String.string)
    (px py : nat) (d : list T) (col : list bool) :
  snd (fractalPixel g type px py (d, col))
  = list_set (py * width g + px)
      (isColoredOf g (iterations g type (planeX g (num px)) (planeY g (num py)))) col.
Proof.
  unfold fractalPixel. cbv zeta.
  destruct (nltb (fadeOf g _) _); [reflexivity|].
  destruct (hslToRgb _ _ _) as [[cr cg] cb].
  destruct (_ && _); reflexivity.
Qed.

Lemma fractalPixel_frame (g : FractalGenerator T) (type : String.string)
    (px py qx qy c : nat) (d : list T) (col : list bool) :
  (px < width g)%nat -> (qx < width g)%nat -> (c < 4)%nat ->
  (fadeOf g (iterations g type (planeX g (num qx)) (planeY g (num qy))) <? #1 / #100)%js = true ->
  get (fst (fractalPixel g type px py (d, col))) ((qy * width g + qx) * 4 + c)
  = get d ((qy * width g + qx) * 4 + c).
Proof.
  intros Hp Hq Hc Hskip. unfold fractalPixel. cbv zeta.
  destruct (nltb (fadeOf g (iterations g type (planeX g (num px)) (planeY g (num py))))
                 (#1 / #100)%js) eqn:E; [reflexivity|].
  assert (Hne : ~ (px = qx /\ py = qy)) by (intros [-> ->]; congruence).
  assert (A0 : ((py * width g + px) * 4 <> (qy * width g + qx) * 4 + c)%nat).
  { replace ((py * width g + px) * 4)%nat with ((py * width g + px) * 4 + 0)%nat by lia.
    apply channel_apart; auto; lia. }
  assert (A1 : ((py * width g + px) * 4 + 1 <> (qy * width g + qx) * 4 + c)%nat)
    by (apply channel_apart; auto; lia).
  assert (A2 : ((py * width g + px) * 4 + 2 <> (qy * width g + qx) * 4 + c)%nat)
    by (apply channel_apart; auto; lia).
  destruct (hslToRgb _ _ _) as [[cr cg] cb].
  destruct (_ && _); cbn [fst]; rewrite !get_put_ne; auto.
Qed.

Lemma drawFractal_data (g : FractalGenerator T) (type : String.string) (r : Render T) :
  data (drawFractal g type r)
  = fst (forRows g (fractalPixel g type) (data r, repeat false (width g * height g))).
Proof.
  unfold drawFractal. cbv zeta. now destruct (forRows _ _ _).
Qed.

Lemma drawFractal_coloredAreas (g : FractalGenerator T) (type : String.string) (r : Render T) :
  coloredAreas (drawFractal g type r)
  = snd (forRows g (fractalPixel g type) (data r, repeat false (width g * height g))).
Proof.
  unfold drawFractal. cbv zeta. now destruct (forRows _ _ _).
Qed.

(** After [drawFractal] the entry of a pixel in [this.coloredAreas] is its
    [isColored]. *)
Lemma drawFractal_marks (g : FractalGenerator T) (type : String.string) (r : Render T)
    (qx qy : nat) :
  (qx < width g)%nat -> (qy < height g)%nat ->
  nth (qy * width g + qx) (coloredAreas (drawFractal g type r)) false
  = isColoredOf g (iterations g type (planeX g (num qx)) (planeY g (num qy))).
Proof.
  intros Hqx Hqy. rewrite drawFractal_coloredAreas.
  assert (Hidx : (qy * width g + qx < width g * height g)%nat) by nia.
  apply (forRows_sets g (fractalPixel g type)
           (fun dc => length (snd dc) = (width g * height g)%nat)
           (fun dc => nth (qy * width g + qx) (snd dc) false
                      = isColoredOf g (iterations g type (planeX g (num qx)) (planeY g (num qy))))
           qx qy); auto.
  - intros px py [d col] _ _ Hlen. rewrite fractalPixel_colored.
    rewrite list_set_length. exact Hlen.
  - intros [d col] Hlen. rewrite fractalPixel_colored.
    apply nth_list_set_eq. simpl in Hlen. lia.
  - intros px py [d col] Hpx _ Hlen Hp. rewrite fractalPixel_colored.
    destruct (Nat.eq_dec (py * width g + px) (qy * width g + qx)) as [E|E].
    + destruct (pixel_index_inj (width g) px py qx qy Hpx Hqx E) as [-> ->].
      apply nth_list_set_eq. simpl in Hlen. lia.
    + rewrite nth_list_set_ne by exact E. exact Hp.
  - simpl. apply repeat_length.
Qed.

(** A pixel whose fade is below 0.01 keeps its channels through
    [drawFractal]. *)
Lemma drawFractal_skips (g : FractalGenerator T) (type : String.string) (r : Render T)
    (qx qy c : nat) :
  (qx < width g)%nat -> (c < 4)%nat ->
  (fadeOf g (iterations g type (planeX g (num qx)) (planeY g (num qy))) <? #1 / #100)%js = true ->
  get (data (drawFractal g type r)) ((qy * width g + qx) * 4 + c)
  = get (data r) ((qy * width g + qx) * 4 + c).
Proof.
  intros Hqx Hc Hskip. rewrite drawFractal_data.
  apply (forRows_keeps g (fractalPixel g type)
           (fun dc => get (fst dc) ((qy * width g + qx) * 4 + c)
                      = get (data r) ((qy * width g + qx) * 4 + c)));
    [reflexivity|].
  intros px py [d col] Hpx _ Hd. rewrite <- Hd. now apply fractalPixel_frame.
Qed.

(** *** The star loop *)

Section StarLoopFacts.

Variables (g : FractalGenerator T) (type : String.string) (rnd : nat -> T).

Lemma starAttempt_attempts (s : StarLoop T) :
  attempts (starAttempt g type rnd s) = S (attempts s).
Proof. unfold starAttempt. cbv zeta. now destruct (_ =? _)%nat. Qed.

Lemma starLoopRuns_true (s : StarLoop T) :
  starLoopRuns s = true <->
  (starsPlotted s < maxStars)%nat /\ (attempts s < maxStars * 10)%nat.
Proof.
  unfold starLoopRuns. now rewrite andb_true_iff, !Nat.ltb_lt.
Qed.

Lemma starAttempt_bounds (s : StarLoop T) :
  starLoopRuns s = true -> starLoopBounds s -> starLoopBounds (starAttempt g type rnd s).
Proof.
  rewrite starLoopRuns_true. intros [Hs Ha] (B1 & B2 & B3).
  unfold starLoopBounds, starAttempt. cbv zeta.
  destruct (_ =? _)%nat; cbn [starsPlotted attempts positions].
  - rewrite length_app; cbn [length]. repeat split; lia.
  - repeat split; lia.
Qed.

Lemma starLoop_bounds (fuel : nat) :
  forall s, starLoopBounds s -> starLoopBounds (starLoop g type rnd fuel s).
Proof.
  induction fuel as [|fuel IH]; intros s B; simpl; [exact B|].
  destruct (starLoopRuns s) eqn:E; [|exact B].
  apply IH. now apply starAttempt_bounds.
Qed.

(** With fuel for the attempts that are left, the loop stops on its own
    condition. *)
Lemma starLoop_exit (fuel : nat) :
  forall s, (maxStars * 10 - attempts s <= fuel)%nat ->
            starLoopRuns (starLoop g type rnd fuel s) = false.
Proof.
  induction fuel as [|fuel IH]; intros s Hf; simpl.
  - unfold starLoopRuns.
    assert ((attempts s <? maxStars * 10)%nat = false) as -> by (apply Nat.ltb_ge; lia).
    apply andb_false_r.
  - destruct (starLoopRuns s) eqn:E; [|exact E].
    apply IH. rewrite starAttempt_attempts. lia.
Qed.

(** The loop only appends to the list of stars. *)
Lemma starAttempt_positions (s : StarLoop T) :
  positions (starAttempt g type rnd s)
  = if (sampledIter g type rnd s =? maxIter g)%nat
    then positions s ++
         [mkStar (sampledX g rnd s) (sampledY g rnd s)
            (let size := rnd (rng s + 2)%nat * (#14 / #10) in
             let brighterStar := rnd (rng s + 3)%nat >? #6 / #10 in
             let glowSize := if brighterStar then #6 else #4 in
             let glow := rnd (rng s + 4)%nat >? #3 / #10 in
             if glow then size * glowSize * (#12 / #10) else size * #2)%js]
    else positions s.
Proof.
  unfold starAttempt, sampledIter, sampledX, sampledY. cbv zeta.
  now destruct (_ =? _)%nat.
Qed.

Lemma starLoop_extends (fuel : nat) :
  forall s star, In star (positions s) -> In star (positions (starLoop g type rnd fuel s)).
Proof.
  induction fuel as [|fuel IH]; intros s star Hin; simpl; [exact Hin|].
  destruct (starLoopRuns s); [|exact Hin].
  apply IH. rewrite starAttempt_positions.
  destruct (_ =? _)%nat; [apply in_or_app; now left | exact Hin].
Qed.

(** The loop, from any state at its head, ends as the whole loop does. *)
Lemma starLoop_from_reached (s : StarLoop T) :
  Reached g type rnd s ->
  drawStarsLoop g type rnd = starLoop g type rnd (maxStars * 10 - attempts s) s.
Proof.
  induction 1 as [|s Hr IH Hruns]; [reflexivity|].
  rewrite IH, starAttempt_attempts.
  apply starLoopRuns_true in Hruns as Hb.
  replace (maxStars * 10 - attempts s)%nat with (S (maxStars * 10 - S (attempts s))) by lia.
  cbn [starLoop]. now rewrite Hruns.
Qed.

(** Every star that the loop adds is the star of a round that found the
    iteration count at the cap. *)
Lemma starLoop_recorded (Q : Star T -> Prop) :
  (forall s, Reached g type rnd s -> starLoopRuns s = true ->
             sampledIter g type rnd s = maxIter g ->
             forall star, positions (starAttempt g type rnd s) = positions s ++ [star] -> Q star) ->
  forall fuel s, Reached g type rnd s ->
    (forall star, In star (positions s) -> Q star) ->
    forall star, In star (positions (starLoop g type rnd fuel s)) -> Q star.
Proof.
  intros HQ. induction fuel as [|fuel IH]; intros s Hr Hs star; simpl; [apply Hs|].
  destruct (starLoopRuns s) eqn:E; [|apply Hs].
  apply IH; [now constructor|].
  intros star'. pose proof (starAttempt_positions s) as Hp.
  destruct (sampledIter g type rnd s =? maxIter g)%nat eqn:Ei.
  - rewrite Hp. intros Hin. apply in_app_or in Hin as [Hin|[<-|[]]]; [now apply Hs|].
    apply (HQ s Hr E); [now apply Nat.eqb_eq | exact Hp].
  - rewrite Hp. apply Hs.
Qed.

End StarLoopFacts.

End PassProperties.

Section RealProperties.

Import RealModel Spec.
Local Open Scope R_scope.

Lemma R_ltb_true a b : R_ltb a b = true <-> a < b.
Proof. unfold R_ltb; destruct (Rlt_dec a b); split; intros; try easy. Qed.

Lemma R_leb_true a b : R_leb a b = true <-> a <= b.
Proof. unfold R_leb; destruct (Rle_dec a b); split; intros; try easy. Qed.

Lemma R_eqb_true a b : R_eqb a b = true <-> a = b.
Proof. unfold R_eqb; destruct (Req_dec_T a b); split; intros; try easy. Qed.

(** The body of the loop of [mandelbrot] is a step of the recurrence. *)
Lemma mandelbrot_body (amp x y zx zy : R) :
  (let xtemp := zx * zx - zy * zy + x in
   let zy' := #2 * zx * zy + y in
   let zx' := xtemp in
   let zx' := zx' + amp * Math_sin (zy' * #3) in
   let zy' := zy' + amp * Math_sin (zx' * #2) in
   (zx', zy'))%js = mandelStep amp x y (zx, zy).
Proof.
  unfold mandelStep; cbn.
  rewrite (Rmult_comm (2 * zx * zy + y) 3).
  replace (zx * zx - zy * zy + x) with (zx * (zx * 1) - zy * (zy * 1) + x) by ring.
  do 4 f_equal; ring.
Qed.

Lemma mandelbrot_loop_count (amp x y : R) (cap fuel : nat) :
  forall zx zy iter,
    mandelbrot_loop amp cap x y fuel zx zy iter
    = countLoop (mandelStep amp x y) cap fuel (zx, zy) iter.
Proof.
  induction fuel as [|fuel IH]; intros zx zy iter; [reflexivity|].
  cbn [mandelbrot_loop countLoop fst snd].
  change (zx * zx + zy * zy <? #4)%js with (R_ltb (zx * zx + zy * zy) 4).
  destruct (R_ltb (zx * zx + zy * zy) 4 && (iter <? cap)%nat); [|reflexivity].
  cbv zeta. rewrite IH. f_equal. apply mandelbrot_body.
Qed.

Lemma julia_loop_count (cx cy : R) (cap fuel : nat) :
  forall zx zy iter,
    julia_loop cap cx cy fuel zx zy iter
    = countLoop (juliaStep cx cy) cap fuel (zx, zy) iter.
Proof.
  induction fuel as [|fuel IH]; intros zx zy iter; [reflexivity|].
  cbn [julia_loop countLoop fst snd].
  change (zx * zx + zy * zy <? #4)%js with (R_ltb (zx * zx + zy * zy) 4).
  destruct (R_ltb (zx * zx + zy * zy) 4 && (iter <? cap)%nat); [|reflexivity].
  cbv zeta. rewrite IH. f_equal.
  unfold juliaStep; cbn. f_equal; ring.
Qed.

Lemma countLoop_test (z : R * R) :
  R_ltb (fst z * fst z + snd z * snd z) 4 = true <-> inDisk z.
Proof.
  unfold inDisk. rewrite R_ltb_true.
  replace (fst z ^ 2 + snd z ^ 2) with (fst z * fst z + snd z * snd z) by ring.
  tauto.
Qed.

(** The loop invariant: with the state on the orbit, and fuel for the rest
    of the cap, the loop returns the number of completed iterations. *)
Lemma countLoop_completed (step : R * R -> R * R) (z0 : R * R) (cap : nat) :
  forall fuel iter,
    (cap - iter <= fuel)%nat -> (iter <= cap)%nat ->
    (forall k, (k < iter)%nat -> inDisk (orbit step z0 k)) ->
    completedIterations step z0 cap
      (countLoop step cap fuel (orbit step z0 iter) iter).
Proof.
  induction fuel as [|fuel IH]; intros iter Hfuel Hcap Hin.
  - simpl. repeat split; [exact Hcap | exact Hin | lia].
  - cbn [countLoop].
    destruct (R_ltb _ 4) eqn:Ht; cbn [andb].
    + destruct (iter <? cap)%nat eqn:Hc.
      * apply Nat.ltb_lt in Hc.
        change (step (orbit step z0 iter)) with (orbit step z0 (S iter)).
        apply IH; [lia | lia |].
        intros k Hk. destruct (Nat.eq_dec k iter) as [->|Hne].
        -- now apply countLoop_test.
        -- apply Hin; lia.
      * apply Nat.ltb_ge in Hc.
        repeat split; [exact Hcap | exact Hin | lia].
    + repeat split; [exact Hcap | exact Hin |].
      intros _ Hd. apply countLoop_test in Hd. congruence.
Qed.

(** The number of completed iterations is unique. *)
Lemma completedIterations_unique step z0 cap n m :
  completedIterations step z0 cap n -> completedIterations step z0 cap m -> n = m.
Proof.
  intros (Hn & Hin & Hout) (Hm & Him & Hout').
  destruct (Nat.lt_trichotomy n m) as [Hlt | [Heq | Hgt]]; [|exact Heq|].
  - exfalso. apply Hout; [lia | now apply Him].
  - exfalso. apply Hout'; [lia | now apply Hin].
Qed.

Lemma mandelbrot_with_completed (amp : R) (g : FractalGenerator R) (x y : R) :
  completedIterations (mandelStep amp x y) (0, 0) (maxIter g) (mandelbrot_with amp g x y).
Proof.
  unfold mandelbrot_with. rewrite mandelbrot_loop_count.
  apply (countLoop_completed (mandelStep amp x y) (0, 0) (maxIter g) (maxIter g) 0);
    [lia | lia | intros k Hk; lia].
Qed.

Lemma julia_completed (g : FractalGenerator R) (x y cx cy : R) :
  completedIterations (juliaStep cx cy) (x, y) (maxIter g) (julia g x y cx cy).
Proof.
  unfold julia. rewrite julia_loop_count.
  apply (countLoop_completed (juliaStep cx cy) (x, y) (maxIter g) (maxIter g) 0);
    [lia | lia | intros k Hk; lia].
Qed.

Lemma completed_cap_iff step z0 cap n :
  completedIterations step z0 cap n -> (n = cap <-> neverEscapes step z0 cap).
Proof.
  intros (Hn & Hin & Hout). split.
  - intros ->. exact Hin.
  - intros Hnever. destruct (Nat.eq_dec n cap) as [|Hne]; [assumption|].
    exfalso. apply Hout; [lia | apply Hnever; lia].
Qed.

(** C1.  Over the reals, for every coordinate (x, y), constant (cx, cy) and
    cap: [mandelbrot] returns the number of completed iterations of the
    orbit that starts at (0, 0) under the step zx' = zx^2 - zy^2 + x,
    zy' = 2 zx zy + y followed by zx += 0.005 sin(3 zy) and then
    zy += 0.005 sin(2 zx); [julia] returns that of the orbit that starts at
    (x, y) under the step without perturbation; and each returns the cap when
    its point never escapes. *)
Theorem C1_escape_time_recurrences (g : FractalGenerator R) (x y cx cy : R) :
  completedIterations (mandelStep (5 / 1000) x y) (0, 0) (maxIter g) (mandelbrot g x y)
  /\ completedIterations (juliaStep cx cy) (x, y) (maxIter g) (julia g x y cx cy)
  /\ (neverEscapes (mandelStep (5 / 1000) x y) (0, 0) (maxIter g) ->
      mandelbrot g x y = maxIter g)
  /\ (neverEscapes (juliaStep cx cy) (x, y) (maxIter g) ->
      julia g x y cx cy = maxIter g).
Proof.
  pose proof (mandelbrot_with_completed (5 / 1000) g x y) as Hm.
  pose proof (julia_completed g x y cx cy) as Hj.
  repeat split; try apply Hm; try apply Hj.
  - intros Hnever. now apply (completed_cap_iff _ _ _ _ Hm).
  - intros Hnever. now apply (completed_cap_iff _ _ _ _ Hj).
Qed.

(** Under the Julia constant (0, 0) the origin never escapes. *)
Lemma origin_never_escapes (cap : nat) : neverEscapes (juliaStep 0 0) (0, 0) cap.
Proof.
  assert (H : forall k, orbit (juliaStep 0 0) (0, 0) k = (0, 0)).
  { induction k as [|k IH]; [reflexivity|].
    simpl orbit. rewrite IH. unfold juliaStep; cbn [fst snd]. f_equal; ring. }
  intros k _. rewrite H. unfold inDisk; simpl. lra.
Qed.

Lemma C1_escape_time_recurrences_witness :
  neverEscapes (juliaStep 0 0) (0, 0) (maxIter stillGenerator)
  /\ julia stillGenerator 0 0 0 0 = 3%nat.
Proof.
  split; [apply origin_never_escapes|].
  destruct (C1_escape_time_recurrences stillGenerator 0 0 0 0) as (_ & _ & _ & H).
  apply H, origin_never_escapes.
Defined.

(** [mandelbrot] starts inside the disk: under a cap of at least 1 it
    completes its first iteration, whatever the point and the perturbation. *)
Lemma mandelbrot_with_first (amp : R) (g : FractalGenerator R) (x y : R) :
  (1 <= maxIter g)%nat -> (1 <= mandelbrot_with amp g x y)%nat.
Proof.
  intros Hcap.
  destruct (mandelbrot_with_completed amp g x y) as (_ & _ & Hout).
  destruct (mandelbrot_with amp g x y) as [|n]; [|lia].
  exfalso. apply Hout; [lia|].
  unfold inDisk; simpl. lra.
Qed.

(** Without perturbation, a point outside the disk is reached by the first
    iteration and stops the loop there. *)
Lemma mandelbrot_unperturbed_outside (g : FractalGenerator R) (x y : R) :
  (1 <= maxIter g)%nat -> x ^ 2 + y ^ 2 >= 4 -> mandelbrot_with 0 g x y = 1%nat.
Proof.
  intros Hcap Hout.
  apply (completedIterations_unique (mandelStep 0 x y) (0, 0) (maxIter g));
    [apply mandelbrot_with_completed|].
  repeat split; [exact Hcap | |].
  - intros k Hk. replace k with 0%nat by lia. unfold inDisk; simpl. lra.
  - intros _. unfold inDisk, mandelStep; cbn [orbit fst snd].
    replace (0 ^ 2 - 0 ^ 2 + x + 0 * sin (3 * (2 * 0 * 0 + y))) with x by ring.
    replace (2 * 0 * 0 + y + 0 * sin (2 * x)) with y by ring.
    lra.
Qed.

Lemma julia_outside (g : FractalGenerator R) (x y cx cy : R) :
  x ^ 2 + y ^ 2 >= 4 -> julia g x y cx cy = 0%nat.
Proof.
  intros Hout.
  destruct (julia_completed g x y cx cy) as (_ & Hin & _).
  destruct (julia g x y cx cy) as [|n]; [reflexivity|].
  exfalso. specialize (Hin 0%nat ltac:(lia)).
  unfold inDisk in Hin; simpl in Hin. lra.
Qed.

(** C2, as the code has it.  For every (x, y) with x^2 + y^2 >= 4: [julia]
    returns 0, since its loop tests the starting point before the first
    increment; [mandelbrot] starts from (0, 0), so that under a cap of at
    least 1 it always completes one iteration, and with the perturbation set
    to zero it returns exactly 1 at such a point.  Both always return a count
    in [0, cap], and return the cap exactly when the point never escapes. *)
Theorem C2_escaped_points (g : FractalGenerator R) (x y cx cy : R) :
  (x ^ 2 + y ^ 2 >= 4 ->
     julia g x y cx cy = 0%nat
     /\ ((1 <= maxIter g)%nat -> mandelbrot_with 0 g x y = 1%nat))
  /\ ((1 <= maxIter g)%nat -> (1 <= mandelbrot g x y)%nat)
  /\ (julia g x y cx cy <= maxIter g)%nat
  /\ (mandelbrot g x y <= maxIter g)%nat
  /\ (julia g x y cx cy = maxIter g
      <-> neverEscapes (juliaStep cx cy) (x, y) (maxIter g))
  /\ (mandelbrot g x y = maxIter g
      <-> neverEscapes (mandelStep (5 / 1000) x y) (0, 0) (maxIter g)).
Proof.
  pose proof (mandelbrot_with_completed (5 / 1000) g x y) as Hm.
  pose proof (julia_completed g x y cx cy) as Hj.
  split; [|split; [|split; [|split; [|split]]]].
  - intros Hout. split.
    + now apply julia_outside.
    + intros Hcap. now apply mandelbrot_unperturbed_outside.
  - apply mandelbrot_with_first.
  - apply Hj.
  - apply Hm.
  - exact (completed_cap_iff _ _ _ _ Hj).
  - exact (completed_cap_iff _ _ _ _ Hm).
Qed.

Lemma C2_escaped_points_witness :
  julia sampleGenerator 2 0 (-0.8) 0.156 = 0%nat
  /\ mandelbrot_with 0 sampleGenerator 2 0 = 1%nat.
Proof.
  destruct (C2_escaped_points sampleGenerator 2 0 (-0.8) 0.156) as [H _].
  destruct H as [Hj Hm]; [lra|].
  split; [exact Hj | apply Hm; simpl; lia].
Defined.

(** The claim of C2 fails for [mandelbrot]: at (2, 0), which has
    x^2 + y^2 = 4, and with the perturbation set to zero, the reference
    configuration returns 1, not 0. *)
Lemma C2_mandelbrot_returns_one :
  2 ^ 2 + 0 ^ 2 >= 4 /\ mandelbrot_with 0 sampleGenerator 2 0 = 1%nat.
Proof.
  split; [lra|].
  apply mandelbrot_unperturbed_outside; [simpl; lia | lra].
Qed.

Lemma R_round_0 : R_round 0 = 0.
Proof.
  unfold R_round. rewrite (Zfloor_eq 0); [reflexivity | simpl; lra].
Qed.

(** With no chroma, [hue2rgb] returns the lightness at every hue. *)
Lemma hue2rgb_same (p t : R) : hue2rgb p p t = p.
Proof.
  unfold hue2rgb; cbn.
  repeat match goal with |- context [R_ltb ?a ?b] => destruct (R_ltb a b) end;
    try reflexivity; ring.
Qed.

(** C7.  For every hue h and saturation s, [hslToRgb(h, s, 0)] is (0, 0, 0);
    and for every hue h and lightness l, [hslToRgb(h, 0, l)] is the gray of
    three equal channels round(l / 100 * 255), where round takes the nearest
    integer, a half upwards. *)
Theorem C7_hslToRgb_black_and_gray (h s l : R) :
  hslToRgb h s 0 = (0, 0, 0)
  /\ hslToRgb h 0 l =
     (IZR (Zfloor (l / 100 * 255 + / 2)),
      IZR (Zfloor (l / 100 * 255 + / 2)),
      IZR (Zfloor (l / 100 * 255 + / 2))).
Proof.
  split.
  - unfold hslToRgb; cbn.
    replace (0 / 100) with 0 by (unfold Rdiv; ring).
    destruct (R_eqb (s / 100) 0).
    + rewrite Rmult_0_l, R_round_0. reflexivity.
    + assert (R_ltb 0 (5 / 10) = true) as -> by (apply R_ltb_true; lra).
      replace (2 * 0 - 0 * (1 + s / 100)) with 0 by ring.
      replace (0 * (1 + s / 100)) with 0 by ring.
      rewrite !hue2rgb_same, Rmult_0_l, R_round_0. reflexivity.
  - unfold hslToRgb; cbn.
    replace (0 / 100) with 0 by (unfold Rdiv; ring).
    assert (R_eqb 0 0 = true) as -> by now apply R_eqb_true.
    reflexivity.
Qed.

(** [Math.pow] at an integer exponent. *)
Lemma R_pow_int (a : R) (z : Z) : R_pow a (IZR z) = powerRZ a z.
Proof.
  unfold R_pow. rewrite ZfloorZ.
  destruct (Req_dec_T (IZR z) (IZR z)); [reflexivity | congruence].
Qed.

(** C10.  In the fractal pass, for every pixel and every noise field whose
    samples lie in [-1, 1], [fogMod], the sum over the layers 0, 1, 2 of
    (sample * 0.5 + 0.5) / (layer + 1) divided by 1.875, lies in [0, 44/45],
    hence in [0, 1), though 1.875 is not the greatest sum 11/6. *)
Theorem C10_fogMod_bounds (g : FractalGenerator R) (px py : nat) :
  (forall a b : R, -1 <= noise2D g a b <= 1) ->
  0 <= fogModOf g px py <= 44 / 45 /\ fogModOf g px py < 1.
Proof.
  intros Hnoise. unfold fogModOf, num; cbn.
  repeat match goal with
         | |- context [noise2D g ?a ?b] =>
             let n := fresh "n" in
             let Hn := fresh "Hn" in
             pose proof (Hnoise a b) as Hn;
             set (n := noise2D g a b) in *; clearbody n
         end.
  lra.
Qed.

Lemma C10_fogMod_bounds_witness :
  (forall a b : R, -1 <= noise2D sampleGenerator a b <= 1)
  /\ 0 <= fogModOf sampleGenerator 400 400 <= 44 / 45
  /\ fogModOf sampleGenerator 400 400 < 1.
Proof.
  assert (H : forall a b : R, -1 <= noise2D sampleGenerator a b <= 1)
    by (intros a b; simpl; lra).
  split; [exact H | apply (C10_fogMod_bounds sampleGenerator 400 400 H)].
Defined.

(** The bound 44/45 is reached: over a noise field that is 1 everywhere the
    sum before the division is 11/6. *)
Example fogMod_bound_reached (px py : nat) : fogModOf brightGenerator px py = 44 / 45.
Proof. unfold fogModOf, num; cbn. lra. Qed.

(** *** The range of [fogIntensity] *)

Lemma fog_amplitude (layer : nat) : 1 / R_pow 2 (num layer) = (/ 2) ^ layer.
Proof.
  unfold num; cbn. rewrite R_pow_int, <- pow_powerRZ, pow_inv. lra.
Qed.

(** The layers from [start] on move the sum by at most the sum of their
    amplitudes. *)
Lemma fog_layers_bound (g : FractalGenerator R) (px py : nat) :
  (forall a b : R, -1 <= noise2D g a b <= 1) ->
  forall n start acc,
    Rabs (fold_left
            (fun noiseSum layer =>
               let frequency := fogSize g * Math_pow #2 (num layer) in
               let amplitude := #1 / Math_pow #2 (num layer) in
               noiseSum + noise2D g (num px * frequency) (num py * frequency) * amplitude)%js
            (seq start n) acc - acc)
    <= (/ 2) ^ start * (2 - 2 * (/ 2) ^ n).
Proof.
  intros Hnoise. induction n as [|n IH]; intros start acc.
  - simpl. replace (acc - acc) with 0 by ring. rewrite Rabs_R0. lra.
  - cbn [seq fold_left]. cbv zeta.
    set (acc' := (acc + _ * _)%js).
    specialize (IH (S start) acc').
    assert (Hstep : Rabs (acc' - acc) <= (/ 2) ^ start).
    { unfold acc'. change (#1 / Math_pow #2 (num start))%js with (1 / R_pow 2 (num start)).
      rewrite fog_amplitude. cbn [nadd nmul RNumber].
      match goal with |- context [noise2D g ?a ?b] =>
        pose proof (Hnoise a b) as Hn; set (v := noise2D g a b) in * end.
      assert (0 < (/ 2) ^ start) by (apply pow_lt; lra).
      apply Rabs_le. split; nra. }
    set (F := fold_left _ (seq (S start) n) acc') in *.
    replace (F - acc) with ((F - acc') + (acc' - acc)) by ring.
    eapply Rle_trans; [apply Rabs_triang|].
    simpl pow in *. assert (0 < (/ 2) ^ start) by (apply pow_lt; lra).
    assert (0 < (/ 2) ^ n) by (apply pow_lt; lra).
    nra.
Qed.

(** What the code guarantees of [fogIntensity]: with n layers over samples
    in [-1, 1] it lies in [2^-n - 1/2, 3/2 - 2^-n], which is [0, 1] for one
    layer only. *)
Lemma fogIntensity_range (g : FractalGenerator R) (px py : nat) :
  (forall a b : R, -1 <= noise2D g a b <= 1) ->
  (/ 2) ^ fogLayerCount g - 1 / 2 <= fogIntensity g px py <= 3 / 2 - (/ 2) ^ fogLayerCount g.
Proof.
  intros Hnoise. unfold fogIntensity, fogNoiseSum.
  pose proof (fog_layers_bound g px py Hnoise (fogLayerCount g) 0 0) as H.
  change (#0)%js with 0 in *. cbn [nadd ndiv lit RNumber].
  set (sum := fold_left _ _ 0) in *.
  replace (sum - 0) with sum in H by ring.
  simpl pow in H.
  assert (0 < (/ 2) ^ fogLayerCount g) by (apply pow_lt; lra).
  unfold Rabs in H. destruct (Rcase_abs sum); lra.
Qed.

(** C3 fails on the code.  With the five layers of the reference
    configuration over a noise field that is 1 everywhere, whose samples lie
    in [-1, 1], [fogIntensity] is (1 + 1/2 + 1/4 + 1/8 + 1/16 + 1) / 2 = 47/32,
    above 1: [applyFogLayer] does not clamp it, as
    [drawPerlinNoiseBackground] clamps its own. *)
Theorem C3_fogIntensity_above_one :
  (forall a b : R, -1 <= noise2D brightGenerator a b <= 1)
  /\ fogIntensity brightGenerator 10 20 = 47 / 32
  /\ ~ (0 <= fogIntensity brightGenerator 10 20 <= 1).
Proof.
  assert (E : fogIntensity brightGenerator 10 20 = 47 / 32).
  { unfold fogIntensity, fogNoiseSum, num.
    cbn [fold_left seq fogLayerCount brightGenerator noise2D fogSize Z.of_nat
         Pos.of_succ_nat Pos.succ].
    cbn [nadd nmul ndiv lit Math_pow RNumber].
    rewrite !R_pow_int. simpl powerRZ. lra. }
  split; [intros a b; simpl; lra|].
  split; [exact E | rewrite E; lra].
Qed.

(** A pixel within the radius of a star ends the star loop with [skipFog]
    set. *)
Lemma nearStar_within (stars : list (Star R)) (star : Star R) (px py : R) :
  In star stars ->
  sqrt ((px - star_x star) ^ 2 + (py - star_y star) ^ 2) <= star_radius star ->
  nearStar stars px py = true.
Proof.
  intros Hin Hd. unfold nearStar. apply existsb_exists.
  exists star. split; [exact Hin|].
  cbn. rewrite !R_pow_int. apply R_leb_true. exact Hd.
Qed.

(** C5.  For every star list, every configuration and every pixel of the
    canvas whose Euclidean distance to the centre of a recorded star is at
    most the radius of that star, the R, G and B values of the pixel are the
    same after the fog overlay pass as before it, and the same after the
    final soft-fog pass as before it; hence the same after the two passes in
    sequence, as [render] runs them. *)
Theorem C5_star_exclusion (g : FractalGenerator R) (r : Render R)
    (qx qy c : nat) (star : Star R) :
  (qx < width g)%nat -> (qy < height g)%nat -> (c < 3)%nat ->
  In star (starPositions r) ->
  sqrt ((num qx - star_x star) ^ 2 + (num qy - star_y star) ^ 2) <= star_radius star ->
  get (data (applyFogLayer g r)) ((qy * width g + qx) * 4 + c)
  = get (data r) ((qy * width g + qx) * 4 + c)
  /\ get (data (softFogPass g r)) ((qy * width g + qx) * 4 + c)
     = get (data r) ((qy * width g + qx) * 4 + c)
  /\ get (data (softFogPass g (applyFogLayer g r))) ((qy * width g + qx) * 4 + c)
     = get (data r) ((qy * width g + qx) * 4 + c).
Proof.
  intros Hqx Hqy Hc Hin Hd.
  assert (Hskip : forall r', starPositions r' = starPositions r -> skipFog g r' qx qy = true).
  { intros r' E. unfold skipFog. rewrite E, (nearStar_within _ star _ _ Hin Hd).
    now destruct (keepBlackAreasClear g && _). }
  destruct (fog_passes_skip g r qx qy c Hqx ltac:(lia) (Hskip r eq_refl)) as [H1 H2].
  split; [exact H1 | split; [exact H2|]].
  destruct (fog_passes_skip g (applyFogLayer g r) qx qy c Hqx ltac:(lia)
              (Hskip (applyFogLayer g r) eq_refl)) as [_ H3].
  now rewrite H3.
Qed.

Lemma C5_star_exclusion_witness :
  let g := stillGenerator in
  get (data (applyFogLayer g sampleRender)) ((2 * 4 + 1) * 4 + 0)
  = get (data sampleRender) ((2 * 4 + 1) * 4 + 0)
  /\ get (data (softFogPass g sampleRender)) ((2 * 4 + 1) * 4 + 0)
     = get (data sampleRender) ((2 * 4 + 1) * 4 + 0)
  /\ get (data (softFogPass g (applyFogLayer g sampleRender))) ((2 * 4 + 1) * 4 + 0)
     = get (data sampleRender) ((2 * 4 + 1) * 4 + 0).
Proof.
  apply (C5_star_exclusion stillGenerator sampleRender 1 2 0 (mkStar 1 1 1)).
  - simpl; lia.
  - simpl; lia.
  - lia.
  - simpl; now left.
  - unfold num; simpl.
    replace ((1 - 1) * ((1 - 1) * 1) + (2 - 1) * ((2 - 1) * 1)) with 1 by ring.
    rewrite sqrt_1. lra.
Defined.

(** *** The fade of a pixel is never the threshold itself

    fade = 0.01 would ask for (iter / cap)^3 = (99 / 100)^2, and 9801 / 10000
    is not the cube of a fraction. *)

Lemma cube_ratio_descent :
  forall k : Z, (0 <= k)%Z ->
  forall a : Z, (0 <= a)%Z -> (1250 * a ^ 3 = 9801 * k ^ 3)%Z -> k = 0%Z.
Proof.
  intros k Hk. pattern k. apply Zlt_0_ind; [clear k Hk | exact Hk].
  intros k IH Hk a Ha H.
  destruct (Z.Even_or_Odd k) as [[j ->]|[j ->]].
  - destruct (Z.Even_or_Odd a) as [[i ->]|[i ->]].
    + destruct (Z.eq_dec j 0) as [->|Hj]; [reflexivity|].
      assert (j = 0%Z); [|lia].
      apply (IH j ltac:(lia) i ltac:(lia)).
      replace ((2 * i) ^ 3)%Z with (8 * i ^ 3)%Z in H by ring.
      replace ((2 * j) ^ 3)%Z with (8 * j ^ 3)%Z in H by ring.
      lia.
    + exfalso.
      replace ((2 * i + 1) ^ 3)%Z with (8 * i ^ 3 + 12 * i ^ 2 + 6 * i + 1)%Z in H by ring.
      replace ((2 * j) ^ 3)%Z with (8 * j ^ 3)%Z in H by ring.
      lia.
  - exfalso.
    replace ((2 * j + 1) ^ 3)%Z with (8 * j ^ 3 + 12 * j ^ 2 + 6 * j + 1)%Z in H by ring.
    lia.
Qed.

Lemma no_cube_ratio (a b : Z) :
  (0 <= a)%Z -> (0 < b)%Z -> (10000 * a ^ 3 <> 9801 * b ^ 3)%Z.
Proof.
  intros Ha Hb H.
  destruct (Z.Even_or_Odd b) as [[k ->]|[k ->]].
  - assert (k = 0%Z); [|lia].
    apply (cube_ratio_descent k ltac:(lia) a Ha).
    replace ((2 * k) ^ 3)%Z with (8 * k ^ 3)%Z in H by ring.
    lia.
  - replace ((2 * k + 1) ^ 3)%Z with (8 * k ^ 3 + 12 * k ^ 2 + 6 * k + 1)%Z in H by ring.
    lia.
Qed.

Lemma fade_not_threshold (iter cap : nat) : (1 <= cap)%nat -> fade iter cap <> 1 / 100.
Proof.
  intros Hcap H. unfold fade, pow15 in H.
  assert (Hb : 0 < INR cap) by (apply lt_0_INR; lia).
  assert (Ha : 0 <= INR iter) by apply pos_INR.
  set (m := INR iter / INR cap) in *.
  assert (Hm : 0 <= m) by (unfold m; apply Rmult_le_pos; [lra | left; now apply Rinv_0_lt_compat]).
  assert (H3 : m ^ 3 = 9801 / 10000).
  { replace (m ^ 3) with ((m * sqrt m) * (m * sqrt m)).
    - replace (m * sqrt m) with (99 / 100) by lra. lra.
    - replace (m * sqrt m * (m * sqrt m)) with (m * m * (sqrt m * sqrt m)) by ring.
      rewrite sqrt_sqrt by exact Hm. ring. }
  assert (E : 10000 * INR iter ^ 3 = 9801 * INR cap ^ 3).
  { replace (INR iter) with (m * INR cap) by (unfold m; field; lra).
    replace ((m * INR cap) ^ 3) with (m ^ 3 * INR cap ^ 3) by ring.
    rewrite H3. field. }
  apply (no_cube_ratio (Z.of_nat iter) (Z.of_nat cap)); [lia | lia |].
  apply eq_IZR. rewrite !mult_IZR.
  change 3%Z with (Z.of_nat 3). rewrite <- !pow_IZR, <- !INR_IZR_INZ.
  exact E.
Qed.

Lemma num_INR (n : nat) : num n = INR n.
Proof. unfold num; cbn. symmetry. apply INR_IZR_INZ. Qed.

(** [Math.pow(m, 1.5)] is m to the power 1.5. *)
Lemma R_pow_three_halves (m : R) : 0 <= m -> R_pow m (15 / 10) = pow15 m.
Proof.
  intros Hm. unfold R_pow, pow15.
  rewrite (Zfloor_eq 1) by (simpl; lra).
  destruct (Req_dec_T (IZR 1) (15 / 10)) as [E|_]; [lra|].
  destruct (Rlt_dec 0 m) as [Hpos|Hz].
  - replace (15 / 10) with (1 + / 2) by lra.
    rewrite Rpower_plus, Rpower_1, Rpower_sqrt by exact Hpos. reflexivity.
  - replace m with 0 by lra. ring.
Qed.

Lemma fadeOf_fade (g : FractalGenerator R) (iter : nat) :
  (1 <= maxIter g)%nat -> fadeOf g iter = fade iter (maxIter g).
Proof.
  intros Hcap. unfold fadeOf, maskOf, fade. rewrite !num_INR. cbn.
  rewrite R_pow_three_halves; [reflexivity|].
  assert (0 < INR (maxIter g)) by (apply lt_0_INR; lia).
  apply Rmult_le_pos; [apply pos_INR | left; now apply Rinv_0_lt_compat].
Qed.

(** The pixel (2, 2) of the still canvas is the origin, which stays there. *)
Lemma still_pixel_plane :
  planeX stillGenerator (num 2) = 0 /\ planeY stillGenerator (num 2) = 0.
Proof. unfold planeX, planeY, num; cbn. split; lra. Qed.

Lemma still_pixel_iterations :
  iterations stillGenerator "julia" 0 0 = 3%nat.
Proof.
  unfold iterations; cbn [String.eqb Ascii.eqb Bool.eqb juliaParams_cx juliaParams_cy stillGenerator].
  apply (completed_cap_iff (juliaStep 0 0) (0, 0) (maxIter stillGenerator));
    [apply julia_completed | apply origin_never_escapes].
Qed.

Lemma fade_at_cap : fade 3 3 = 0.
Proof.
  unfold fade, pow15. replace (INR 3 / INR 3) with 1 by (simpl; field).
  rewrite sqrt_1. ring.
Qed.

(** C4.  In the fractal pass, for every pixel of the canvas: its entry of
    the coloured-area mask is set to (iter < cap and fade > 0.01), where
    mask = iter / cap and fade = 1 - mask^1.5; and when fade <= 0.01 the
    pass leaves the four channels of the pixel, R, G, B and alpha, as they
    were: neither blend is applied to it.  (The test of the source is
    fade < 0.01; the fade of a pixel is never 0.01.) *)
Theorem C4_mask_and_skip (g : FractalGenerator R) (type : String.string) (r : Render R)
    (qx qy : nat) :
  (1 <= maxIter g)%nat -> (qx < width g)%nat -> (qy < height g)%nat ->
  let iter := iterations g type (planeX g (num qx)) (planeY g (num qy)) in
  (nth (qy * width g + qx) (coloredAreas (drawFractal g type r)) false = true
   <-> (iter < maxIter g)%nat /\ fade iter (maxIter g) > 1 / 100)
  /\ (fade iter (maxIter g) <= 1 / 100 ->
      forall c, (c < 4)%nat ->
        get (data (drawFractal g type r)) ((qy * width g + qx) * 4 + c)
        = get (data r) ((qy * width g + qx) * 4 + c)).
Proof.
  intros Hcap Hqx Hqy iter. split.
  - rewrite drawFractal_marks by assumption. fold iter.
    unfold isColoredOf. rewrite andb_true_iff, Nat.ltb_lt.
    rewrite fadeOf_fade by exact Hcap. cbn. rewrite R_ltb_true. tauto.
  - intros Hfade c Hc.
    apply drawFractal_skips; [exact Hqx | exact Hc |]. fold iter.
    rewrite fadeOf_fade by exact Hcap. cbn. apply R_ltb_true.
    pose proof (fade_not_threshold iter (maxIter g) Hcap). lra.
Qed.

Lemma C4_mask_and_skip_witness :
  nth (2 * 4 + 2) (coloredAreas (drawFractal stillGenerator "julia" sampleRender)) false = false
  /\ get (data (drawFractal stillGenerator "julia" sampleRender)) ((2 * 4 + 2) * 4 + 0)
     = get (data sampleRender) ((2 * 4 + 2) * 4 + 0)
  /\ get (data (drawFractal stillGenerator "julia" sampleRender)) ((2 * 4 + 2) * 4 + 3)
     = get (data sampleRender) ((2 * 4 + 2) * 4 + 3).
Proof.
  destruct (C4_mask_and_skip stillGenerator "julia" sampleRender 2 2) as [Hmask Hskip];
    [simpl; lia | simpl; lia | simpl; lia |].
  destruct still_pixel_plane as [Ex Ey].
  rewrite Ex, Ey, still_pixel_iterations in Hmask, Hskip.
  change (maxIter stillGenerator) with 3%nat in Hmask, Hskip.
  change (width stillGenerator) with 4%nat in Hmask, Hskip.
  split.
  - destruct (nth _ _ false); [|reflexivity].
    destruct Hmask as [Hm _]. destruct (Hm eq_refl) as [Hlt _]. lia.
  - split; apply Hskip; try lia; rewrite fade_at_cap; lra.
Defined.

(** The star that a round records, read in the reals. *)
Lemma starAttempt_records (g : FractalGenerator R) (type : String.string)
    (rnd : nat -> R) (s : StarLoop R) (star : Star R) :
  sampledIter g type rnd s = maxIter g ->
  positions (starAttempt g type rnd s) = positions s ++ [star] ->
  star = mkStar (IZR (Zfloor (rnd (rng s) * INR (width g))))
                (IZR (Zfloor (rnd (rng s + 1)%nat * INR (height g))))
                (exclusionRadius (rnd (rng s + 2)%nat * 1.4)
                                 (R_ltb 0.6 (rnd (rng s + 3)%nat))
                                 (R_ltb 0.3 (rnd (rng s + 4)%nat))).
Proof.
  intros Hi Hp. rewrite starAttempt_positions, Hi, Nat.eqb_refl in Hp.
  apply app_inv_head in Hp. injection Hp as <-.
  unfold sampledX, sampledY, exclusionRadius, glowMultiplier.
  rewrite !INR_IZR_INZ. reflexivity.
Qed.

(** C6.  In the star pass, for every random stream: the loop makes at most
    3000 attempts, records at most 300 stars, and stops on its own
    condition; a round records the coordinate it samples if and only if the
    iteration count there, under the recurrence selected, is the cap; and
    every star recorded is the star of such a round, of radius
    size * glowMultiplier * 1.2 when it glows and size * 2 otherwise, where
    glowMultiplier is 6 for a brighter star and 4 otherwise. *)
Theorem C6_star_placement (g : FractalGenerator R) (type : String.string) (rnd : nat -> R) :
  let final := drawStarsLoop g type rnd in
  let recorded (s : StarLoop R) :=
    mkStar (IZR (Zfloor (rnd (rng s) * INR (width g))))
           (IZR (Zfloor (rnd (rng s + 1)%nat * INR (height g))))
           (exclusionRadius (rnd (rng s + 2)%nat * 1.4)
                            (R_ltb 0.6 (rnd (rng s + 3)%nat))
                            (R_ltb 0.3 (rnd (rng s + 4)%nat))) in
  ((attempts final <= 3000)%nat
   /\ (length (positions final) <= 300)%nat
   /\ starLoopRuns final = false)
  /\ (forall s, Reached g type rnd s -> starLoopRuns s = true ->
        (sampledIter g type rnd s = maxIter g ->
           positions (starAttempt g type rnd s) = positions s ++ [recorded s]
           /\ In (recorded s) (positions final))
        /\ (sampledIter g type rnd s <> maxIter g ->
              positions (starAttempt g type rnd s) = positions s))
  /\ (forall star, In star (positions final) ->
        exists s, Reached g type rnd s /\ starLoopRuns s = true
                  /\ sampledIter g type rnd s = maxIter g
                  /\ star = recorded s).
Proof.
  intros final recorded.
  assert (Hrec : forall s, sampledIter g type rnd s = maxIter g ->
            positions (starAttempt g type rnd s) = positions s ++ [recorded s]).
  { intros s Hi. pose proof (starAttempt_positions g type rnd s) as Hp.
    rewrite Hi, Nat.eqb_refl in Hp.
    rewrite Hp. f_equal. f_equal.
    apply (starAttempt_records g type rnd s _ Hi Hp). }
  split; [|split].
  - assert (B : starLoopBounds final).
    { apply starLoop_bounds. unfold starLoopBounds, maxStars; simpl; lia. }
    destruct B as (B1 & B2 & B3). unfold maxStars in *.
    repeat split; [lia | lia |].
    apply starLoop_exit. simpl; lia.
  - intros s Hr Hruns. split.
    + intros Hi. split; [now apply Hrec|].
      unfold final.
      rewrite (starLoop_from_reached g type rnd _ (Reached_next g type rnd s Hr Hruns)).
      apply starLoop_extends. rewrite (Hrec s Hi).
      apply in_or_app; right; now left.
    + intros Hi. rewrite starAttempt_positions.
      apply Nat.eqb_neq in Hi. now rewrite Hi.
  - intros star Hin.
    apply (starLoop_recorded g type rnd
             (fun star => exists s, Reached g type rnd s /\ starLoopRuns s = true
                                    /\ sampledIter g type rnd s = maxIter g
                                    /\ star = recorded s))
      with (fuel := (maxStars * 10)%nat) (s := mkStarLoop 0 0 [] [] 0%nat);
      [ | constructor | intros ? [] | exact Hin].
    intros s Hr Hruns Hi star' Hp. exists s. repeat split; auto.
    now apply (starAttempt_records g type rnd s).
Qed.

Lemma C6_star_placement_witness :
  let final := drawStarsLoop stillGenerator "julia" (fun _ => 0.5) in
  (attempts final <= 3000)%nat
  /\ (length (positions final) <= 300)%nat
  /\ starLoopRuns final = false
  /\ In (mkStar 2 2 3.36) (positions final).
Proof.
  destruct (C6_star_placement stillGenerator "julia" (fun _ => 0.5))
    as [(Ha & Hl & Hr) [Hround _]].
  repeat split; [exact Ha | exact Hl | exact Hr |].
  destruct (Hround (mkStarLoop 0 0 [] [] 0) (Reached_start _ _ _) eq_refl) as [Hrec _].
  assert (Ef : Zfloor (0.5 * INR 4) = 2%Z) by (apply Zfloor_eq; simpl; lra).
  assert (Ei : sampledIter stillGenerator "julia" (fun _ => 0.5) (mkStarLoop 0 0 [] [] 0)
               = maxIter stillGenerator).
  { unfold sampledIter, sampledX, sampledY.
    cbn [rng width height stillGenerator Math_floor RNumber nmul].
    rewrite !num_INR, Ef.
    destruct still_pixel_plane as [Ex Ey]. unfold num in Ex, Ey.
    change (#(Z.of_nat 2))%js with (IZR 2) in Ex, Ey.
    rewrite Ex, Ey. apply still_pixel_iterations. }
  destruct (Hrec Ei) as [_ Hin].
  cbn [rng width height stillGenerator] in Hin. rewrite Ef in Hin.
  assert (Eb : R_ltb 0.6 0.5 = false).
  { unfold R_ltb. destruct (Rlt_dec 0.6 0.5); [lra | reflexivity]. }
  assert (Eg : R_ltb 0.3 0.5 = true) by (apply R_ltb_true; lra).
  rewrite Eb, Eg in Hin. unfold exclusionRadius, glowMultiplier in Hin.
  replace 3.36 with (0.5 * 1.4 * 4 * 1.2) by lra. exact Hin.
Defined.

End RealProperties.

Section BinaryProperties.

Import FloatModel.

Variable P : Platform.

(** The decimal constants of the source, written as quotients of integer
    literals, are the doubles that the parser of the source reads. *)
#[warnings="-inexact-float"]
Lemma decimal_constants :
  let d (n m : Z) := (float_lit n / float_lit m)%float in
  d 5%Z 1000%Z = 0.005%float /\ d 2%Z 1000%Z = 0.002%float /\ d 1%Z 100%Z = 0.01%float
  /\ d 3%Z 100%Z = 0.03%float /\ d 35%Z 100%Z = 0.35%float /\ d 1875%Z 1000%Z = 1.875%float
  /\ d 3%Z 10%Z = 0.3%float /\ d 4%Z 10%Z = 0.4%float /\ d 5%Z 10%Z = 0.5%float
  /\ d 6%Z 10%Z = 0.6%float /\ d 7%Z 10%Z = 0.7%float /\ d 12%Z 10%Z = 1.2%float
  /\ d 14%Z 10%Z = 1.4%float /\ d 15%Z 10%Z = 1.5%float.
Proof. repeat split; reflexivity. Qed.

(** The source evaluated in binary64: [julia] under the cap of 100, and
    [blend], whose identities hold there up to rounding. *)
#[warnings="-inexact-float"]
Example julia_binary64 :
  julia (JSN := FloatNumber P) zeroZoomGenerator 0%float 0%float (-0.8)%float 0.156%float = 100%nat
  /\ julia (JSN := FloatNumber P) zeroZoomGenerator 0.5%float 0.5%float (-0.8)%float 0.156%float = 4%nat
  /\ julia (JSN := FloatNumber P) zeroZoomGenerator 1%float 1%float (-0.8)%float 0.156%float = 1%nat
  /\ julia (JSN := FloatNumber P) zeroZoomGenerator 2%float 0%float (-0.8)%float 0.156%float = 0%nat.
Proof. repeat split; vm_compute; reflexivity. Qed.

#[warnings="-inexact-float"]
Example blend_binary64 :
  blend (JSN := FloatNumber P) 10%float 250%float 0.5%float = 130%float
  /\ blend (JSN := FloatNumber P) 10%float 250%float 0%float = 10%float
  /\ blend (JSN := FloatNumber P) 10%float 250%float 1%float = 250%float
  /\ blend (JSN := FloatNumber P) 3%float 3%float 0.01%float = 2.9999999999999996%float.
Proof. repeat split; vm_compute; reflexivity. Qed.

Lemma SFcompare_refl_finite s m e :
  SFcompare (S754_finite s m e) (S754_finite s m e) = Some Eq.
Proof.
  simpl. rewrite Z.compare_refl.
  assert (Pos.compare_cont Eq m m = Eq) as -> by apply Pos.compare_cont_refl.
  now destruct s.
Qed.

(** [is_finite] of the library is false on NaN and the infinities only. *)
Lemma is_finite_false (a : float) : is_finite a = false <-> nonFinite a.
Proof.
  unfold is_finite, is_nan, is_infinity, nonFinite.
  rewrite !FloatAxioms.eqb_spec, FloatAxioms.abs_spec.
  change (Prim2SF infinity) with (S754_infinity false).
  destruct (Prim2SF a) as [s| s| |s m e]; unfold SFeqb.
  - simpl. split; [discriminate | intros [H|[s' H]]; discriminate].
  - split; [intros _; right; now exists s | intros _; now destruct s].
  - simpl. split; [intros _; now left | reflexivity].
  - rewrite SFcompare_refl_finite. simpl.
    split; [discriminate | intros [H|[s' H]]; discriminate].
Qed.

Lemma nonFinite_add_l (a b : float) : nonFinite a -> nonFinite (a + b)%float.
Proof.
  unfold nonFinite. rewrite FloatAxioms.add_spec.
  intros [-> | [s ->]]; [now left|].
  destruct (Prim2SF b) as [s'|s'| |s' m e]; simpl.
  - right; now exists s.
  - destruct s, s'; simpl; eauto.
  - now left.
  - right; now exists s.
Qed.

Lemma nonFinite_add_r (a b : float) : nonFinite b -> nonFinite (a + b)%float.
Proof.
  unfold nonFinite. rewrite FloatAxioms.add_spec.
  intros [-> | [s ->]].
  - left. now destruct (Prim2SF a).
  - destruct (Prim2SF a) as [s'|s'| |s' m e]; simpl.
    + right; now exists s.
    + destruct s', s; simpl; eauto.
    + now left.
    + right; now exists s.
Qed.

Lemma binary_round_aux_sign sx mx ex lx :
  binary_round_aux prec emax sx mx ex lx <> S754_infinity (negb sx).
Proof.
  unfold binary_round_aux.
  destruct (shr_fexp prec emax mx ex lx) as [mrs' e'].
  destruct (shr_fexp prec emax _ e' loc_Exact) as [mrs'' e''].
  destruct (shr_m mrs''); [|destruct (Z.leb _ _)|]; destruct sx; discriminate.
Qed.

(** A square is never the negative infinity. *)
Lemma square_not_neg_inf (a : float) : Prim2SF (a * a)%float <> S754_infinity true.
Proof.
  rewrite FloatAxioms.mul_spec. unfold SF64mul.
  destruct (Prim2SF a) as [s|s| |s m e]; simpl; try discriminate.
  - destruct s; discriminate.
  - replace true with (negb (xorb s s)) by now destruct s.
    apply binary_round_aux_sign.
Qed.

Lemma square_nonFinite (a : float) : nonFinite a -> nanOrPosInf (a * a)%float.
Proof.
  unfold nonFinite, nanOrPosInf. rewrite FloatAxioms.mul_spec.
  intros [-> | [s ->]]; simpl; [now left|].
  right. now destruct s.
Qed.

Lemma add_nanOrPosInf_l (a b : float) :
  nanOrPosInf a -> Prim2SF b <> S754_infinity true -> nanOrPosInf (a + b)%float.
Proof.
  unfold nanOrPosInf. rewrite FloatAxioms.add_spec.
  intros [-> | ->] Hb; [now left|].
  destruct (Prim2SF b) as [s'|s'| |s' m e]; simpl; auto.
  destruct s'; [congruence | auto].
Qed.

Lemma add_nanOrPosInf_r (a b : float) :
  Prim2SF a <> S754_infinity true -> nanOrPosInf b -> nanOrPosInf (a + b)%float.
Proof.
  unfold nanOrPosInf. rewrite FloatAxioms.add_spec.
  intros Ha [-> | ->].
  - left. now destruct (Prim2SF a).
  - destruct (Prim2SF a) as [s'|s'| |s' m e]; simpl; auto.
    destruct s'; [congruence | auto].
Qed.

(** NaN and the positive infinity are below no number. *)
Lemma nanOrPosInf_not_below (a b : float) : nanOrPosInf a -> (a <? b)%float = false.
Proof.
  unfold nanOrPosInf. rewrite FloatAxioms.ltb_spec.
  intros [-> | ->]; unfold SFltb; simpl; [reflexivity|].
  destruct (Prim2SF b) as [s'|s'| |s' m e]; try reflexivity.
  now destruct s'.
Qed.

(** The test of the two loops fails as soon as one coordinate of the state
    is not finite. *)
Lemma escape_test_nonFinite (zx zy bound : float) :
  nonFinite zx \/ nonFinite zy -> (zx * zx + zy * zy <? bound)%float = false.
Proof.
  intros H. apply nanOrPosInf_not_below.
  destruct H as [H|H].
  - apply add_nanOrPosInf_l; [now apply square_nonFinite | apply square_not_neg_inf].
  - apply add_nanOrPosInf_r; [apply square_not_neg_inf | now apply square_nonFinite].
Qed.

Lemma julia_nonFinite (g : FractalGenerator float) (x y cx cy : float) :
  nonFinite x \/ nonFinite y -> julia (JSN := FloatNumber P) g x y cx cy = 0%nat.
Proof.
  intros H. unfold julia.
  destruct (maxIter g) as [|cap]; [reflexivity|].
  cbn [julia_loop].
  change (x * x + y * y <? #4)%js with (x * x + y * y <? float_lit 4)%float.
  now rewrite escape_test_nonFinite.
Qed.

(** From a state that is not finite the loop of [mandelbrot] stops at once. *)
Lemma mandelbrot_loop_nonFinite (amp x y : float) (cap fuel : nat) (zx zy : float) (iter : nat) :
  nonFinite zx \/ nonFinite zy ->
  mandelbrot_loop (JSN := FloatNumber P) amp cap x y fuel zx zy iter = iter.
Proof.
  intros H. destruct fuel as [|fuel]; [reflexivity|].
  cbn [mandelbrot_loop].
  change (zx * zx + zy * zy <? #4)%js with (zx * zx + zy * zy <? float_lit 4)%float.
  now rewrite escape_test_nonFinite.
Qed.

Lemma mandelbrot_nonFinite (g : FractalGenerator float) (x y : float) :
  (1 <= maxIter g)%nat -> nonFinite x \/ nonFinite y ->
  mandelbrot (JSN := FloatNumber P) g x y = 1%nat.
Proof.
  intros Hcap H. unfold mandelbrot, mandelbrot_with.
  destruct (maxIter g) as [|cap]; [lia|].
  cbn [mandelbrot_loop].
  change (#0 * #0 + #0 * #0 <? #4)%js with true.
  cbn [andb Nat.ltb Nat.leb]. cbv zeta.
  apply mandelbrot_loop_nonFinite.
  change (@nadd float (FloatNumber P)) with PrimFloat.add.
  destruct H as [H|H].
  - left. now apply nonFinite_add_l, nonFinite_add_r.
  - right. now apply nonFinite_add_l, nonFinite_add_r.
Qed.

(** With a zoom of zero every pixel is sent to coordinates that are not
    finite. *)
Lemma plane_zero_zoom (half offset p z : float) :
  is_zero z = true -> nonFinite ((p - half) / z + offset)%float.
Proof.
  intros Hz. apply nonFinite_add_l.
  unfold is_zero in Hz. rewrite FloatAxioms.eqb_spec in Hz.
  change (Prim2SF zero) with (S754_zero false) in Hz.
  unfold nonFinite. rewrite FloatAxioms.div_spec.
  unfold SFeqb in Hz.
  destruct (Prim2SF z) as [s|s| |s m e]; simpl in Hz.
  - destruct (Prim2SF (p - half)%float) as [s'|s'| |s' m' e']; simpl; eauto.
  - now destruct s.
  - discriminate.
  - now destruct s.
Qed.

(** *** [blend] at the two ends of alpha

    In binary64 a product by 1 is exact and a product of a finite number by
    0 is a zero, so [blend] returns one of its two colours when alpha is 0
    or 1; at another alpha the two products and the sum are rounded. *)

Lemma finite_cases (a : float) :
  is_finite a = true ->
  (exists s, Prim2SF a = S754_zero s) \/ (exists s m e, Prim2SF a = S754_finite s m e).
Proof.
  intros H.
  assert (Hn : ~ nonFinite a).
  { intros Hn. apply is_finite_false in Hn. congruence. }
  unfold nonFinite in Hn.
  destruct (Prim2SF a) as [s|s| |s m e]; eauto.
  - exfalso. apply Hn. right. now exists s.
  - exfalso. apply Hn. now left.
Qed.

Lemma mul_one_exact (s : bool) (m : positive) (e : Z) :
  SpecFloat.bounded prec emax m e = true ->
  SFmul prec emax (S754_finite s m e) (Prim2SF 1%float) = S754_finite s m e.
Proof.
  intros Hb. unfold SpecFloat.bounded, canonical_mantissa in Hb.
  apply andb_true_iff in Hb. destruct Hb as [Hc He].
  apply Z.eqb_eq in Hc.
  change (Prim2SF 1%float) with (S754_finite false 4503599627370496 (-52)).
  cbn [SFmul]. rewrite Pos.mul_comm. cbn [Pos.mul].
  unfold binary_round_aux, shr_fexp.
  cbn [Zdigits2 digits2_pos shr_record_of_loc].
  set (d := digits2_pos m) in *.
  match goal with
  | |- context [(fexp prec emax ?a - ?b)%Z] =>
      replace (fexp prec emax a - b)%Z with 52%Z
        by (replace a with (Z.pos d + e)%Z by lia; rewrite Hc; lia)
  end.
  cbn [shr SpecFloat.iter_pos shr_1 orb shr_m loc_of_shr_record round_nearest_even Zdigits2].
  fold d.
  replace (e + -52 + 52)%Z with e by lia.
  rewrite Hc, Z.sub_diag. cbn [shr shr_m]. rewrite He.
  now destruct s.
Qed.

(** [a * 1] is [a], for every double. *)
Lemma mul_one (a : float) : (a * 1)%float = a.
Proof.
  apply Prim2SF_inj. rewrite FloatAxioms.mul_spec. unfold SF64mul.
  pose proof (Prim2SF_valid a) as Hv.
  destruct (Prim2SF a) as [s|s| |s m e].
  - now destruct s.
  - now destruct s.
  - reflexivity.
  - now apply mul_one_exact.
Qed.

(** [a * 0] is a zero, for every finite double. *)
Lemma mul_zero (a : float) :
  is_finite a = true -> exists s, Prim2SF (a * 0)%float = S754_zero s.
Proof.
  intros H. rewrite FloatAxioms.mul_spec. unfold SF64mul.
  change (Prim2SF 0%float) with (S754_zero false).
  destruct (finite_cases a H) as [[s ->]|(s & m & e & ->)]; simpl; eauto.
Qed.

Lemma add_zero_r (a z : float) (s : bool) :
  is_finite a = true -> Prim2SF z = S754_zero s -> (a + z =? a)%float = true.
Proof.
  intros H Hz. rewrite FloatAxioms.eqb_spec, FloatAxioms.add_spec, Hz. unfold SF64add.
  destruct (finite_cases a H) as [[sa ->]|(sa & m & e & ->)].
  - now destruct sa, s.
  - cbn [SFadd]. unfold SFeqb. now rewrite SFcompare_refl_finite.
Qed.

Lemma add_zero_l (a z : float) (s : bool) :
  is_finite a = true -> Prim2SF z = S754_zero s -> (z + a =? a)%float = true.
Proof.
  intros H Hz. rewrite FloatAxioms.eqb_spec, FloatAxioms.add_spec, Hz. unfold SF64add.
  destruct (finite_cases a H) as [[sa ->]|(sa & m & e & ->)].
  - now destruct sa, s.
  - cbn [SFadd]. unfold SFeqb. now rewrite SFcompare_refl_finite.
Qed.

(** C8, as the code has it.  [blend(bg, fg, alpha)] is
    bg (1 - alpha) + fg alpha, with no clamp.  In binary64, for finite bg
    and fg, [blend(bg, fg, 0)] is bg and [blend(bg, fg, 1)] is fg.
    [blend(bg, bg, alpha) = bg] is an identity of the real numbers, where
    all of them hold; in binary64 it holds at alpha 0 and 1. *)
Theorem C8_blend_identities (bg fg : float) :
  is_finite bg = true -> is_finite fg = true ->
  (forall alpha : float,
      blend (JSN := FloatNumber P) bg fg alpha = (bg * (1 - alpha) + fg * alpha)%float)
  /\ (blend (JSN := FloatNumber P) bg fg 0%float =? bg)%float = true
  /\ (blend (JSN := FloatNumber P) bg fg 1%float =? fg)%float = true
  /\ (blend (JSN := FloatNumber P) bg bg 0%float =? bg)%float = true
  /\ (blend (JSN := FloatNumber P) bg bg 1%float =? bg)%float = true
  /\ (forall b f a : R,
        blend (JSN := RealModel.RNumber) b f a = b * (1 - a) + f * a
        /\ blend (JSN := RealModel.RNumber) b f 0 = b
        /\ blend (JSN := RealModel.RNumber) b f 1 = f
        /\ blend (JSN := RealModel.RNumber) b b a = b)%R.
Proof.
  intros Hbg Hfg.
  assert (H0 : forall b f : float, is_finite b = true -> is_finite f = true ->
             (blend (JSN := FloatNumber P) b f 0%float =? b)%float = true).
  { intros b f Hb Hf. change (blend (JSN := FloatNumber P) b f 0%float) with (b * 1 + f * 0)%float.
    rewrite mul_one. destruct (mul_zero f Hf) as [s Hs]. now apply (add_zero_r b _ s). }
  assert (H1 : forall b f : float, is_finite b = true -> is_finite f = true ->
             (blend (JSN := FloatNumber P) b f 1%float =? f)%float = true).
  { intros b f Hb Hf. change (blend (JSN := FloatNumber P) b f 1%float) with (b * 0 + f * 1)%float.
    rewrite mul_one. destruct (mul_zero b Hb) as [s Hs]. now apply (add_zero_l f _ s). }
  split; [reflexivity|].
  repeat split; auto.
  all: unfold blend; cbn; ring.
Qed.

(** C9, as the code has it.  In binary64, under a cap of at least 1: when a
    coordinate is NaN or infinite, neither loop faults; [julia] fails its
    first test and returns 0; [mandelbrot] starts from (0, 0), completes one
    iteration and returns 1, the test failing on the state that is then NaN
    or infinite.  A zoom of zero sends every pixel to such coordinates. *)
Theorem C9_nonfinite_coordinates (g : FractalGenerator float) (cx cy : float) :
  (1 <= maxIter g)%nat ->
  (forall x y : float,
      is_finite x = false \/ is_finite y = false ->
      julia (JSN := FloatNumber P) g x y cx cy = 0%nat
      /\ mandelbrot (JSN := FloatNumber P) g x y = 1%nat)
  /\ (is_zero (zoom g) = true ->
      forall px py : float,
        is_finite (planeX (JSN := FloatNumber P) g px) = false
        /\ is_finite (planeY (JSN := FloatNumber P) g py) = false).
Proof.
  intros Hcap. split.
  - intros x y H. rewrite !is_finite_false in H. split.
    + now apply julia_nonFinite.
    + now apply mandelbrot_nonFinite.
  - intros Hz px py. rewrite !is_finite_false. split.
    + apply (plane_zero_zoom (num (width g) / #2)%js (offsetX g) px (zoom g) Hz).
    + apply (plane_zero_zoom (num (height g) / #2)%js (offsetY g) py (zoom g) Hz).
Qed.

End BinaryProperties.

Lemma C8_blend_identities_witness :
  is_finite 10%float = true /\ is_finite 250%float = true
  /\ (blend (JSN := FloatModel.FloatNumber nanPlatform) 10%float 250%float 0%float =? 10)%float = true
  /\ (blend (JSN := FloatModel.FloatNumber nanPlatform) 10%float 250%float 1%float =? 250)%float = true.
Proof.
  destruct (C8_blend_identities nanPlatform 10%float 250%float eq_refl eq_refl) as (_ & H0 & H1 & _).
  repeat split; assumption.
Defined.

(** The claim of C8 fails for its third identity: in binary64
    [blend(3, 3, 0.01)] is 2.9999999999999996, not 3. *)
#[warnings="-inexact-float"]
Lemma C8_blend_same_colour_rounds :
  is_finite 3%float = true
  /\ (FloatModel.float_lit 1 / FloatModel.float_lit 100)%float = 0.01%float
  /\ blend (JSN := FloatModel.FloatNumber nanPlatform) 3%float 3%float 0.01%float = 2.9999999999999996%float
  /\ (blend (JSN := FloatModel.FloatNumber nanPlatform) 3%float 3%float 0.01%float =? 3)%float = false.
Proof. repeat split; vm_compute; reflexivity. Qed.

Lemma C9_nonfinite_coordinates_witness :
  (1 <= maxIter zeroZoomGenerator)%nat
  /\ julia (JSN := FloatModel.FloatNumber nanPlatform) zeroZoomGenerator
       neg_infinity nan (-0.75)%float 0%float = 0%nat
  /\ mandelbrot (JSN := FloatModel.FloatNumber nanPlatform) zeroZoomGenerator
       neg_infinity nan = 1%nat
  /\ is_finite (planeX (JSN := FloatModel.FloatNumber nanPlatform) zeroZoomGenerator 0%float)
     = false
  /\ is_finite (planeY (JSN := FloatModel.FloatNumber nanPlatform) zeroZoomGenerator 400%float)
     = false.
Proof.
  assert (Hcap : (1 <= maxIter zeroZoomGenerator)%nat) by (simpl; lia).
  destruct (C9_nonfinite_coordinates nanPlatform zeroZoomGenerator (-0.75)%float 0%float Hcap)
    as [Hloops Hzoom].
  destruct (Hloops neg_infinity nan (or_introl eq_refl)) as [Hj Hm].
  destruct (Hzoom eq_refl 0%float 400%float) as [Hx Hy].
  repeat split; assumption.
Defined.

(** The claim of C9 fails for [mandelbrot]: with a zoom of zero the pixel
    (0, 400) of the reference configuration is sent to (-infinity, NaN), and
    there the loop completes one iteration and returns 1, not 0. *)
Lemma C9_mandelbrot_returns_one :
  planeX (JSN := FloatModel.FloatNumber nanPlatform) zeroZoomGenerator 0%float = neg_infinity
  /\ is_nan (planeY (JSN := FloatModel.FloatNumber nanPlatform) zeroZoomGenerator 400%float) = true
  /\ mandelbrot (JSN := FloatModel.FloatNumber nanPlatform) zeroZoomGenerator
       (planeX (JSN := FloatModel.FloatNumber nanPlatform) zeroZoomGenerator 0%float)
       (planeY (JSN := FloatModel.FloatNumber nanPlatform) zeroZoomGenerator 400%float)
     = 1%nat.
Proof. repeat split; vm_compute; reflexivity. Qed.

(** ** More properties of the passes, in every model of the numbers *)

Section PixelLocal.

Context {T : Type} {JSN : JSNumber T}.
Local Open Scope js_scope.

(** A loop over distinct elements: what holds until the round of [q], and
    what that round sets up and the later rounds keep. *)
Lemma fold_left_once {A B : Type} (f : A -> B -> A) (Pre Post : A -> Prop)
    (l : list B) (q : B) :
  NoDup l -> In q l ->
  (forall a b, In b l -> b <> q -> Pre a -> Pre (f a b)) ->
  (forall a, Pre a -> Post (f a q)) ->
  (forall a b, In b l -> b <> q -> Post a -> Post (f a b)) ->
  forall a, Pre a -> Post (fold_left f l a).
Proof.
  intros Hnd Hin Hpre Hq Hpost a Ha.
  destruct (in_split _ _ Hin) as (l1 & l2 & ->).
  apply NoDup_remove_2 in Hnd.
  rewrite fold_left_app; simpl.
  apply fold_left_keeps.
  - apply Hq. apply fold_left_keeps; [exact Ha|].
    intros a' b Hb Ha'. apply Hpre; [apply in_or_app; now left | | exact Ha'].
    intros ->. apply Hnd, in_or_app; now left.
  - intros a' b Hb Ha'. apply Hpost; [apply in_or_app; right; now right | | exact Ha'].
    intros ->. apply Hnd, in_or_app; now right.
Qed.

Lemma forColumns_once {A : Type} (g : FractalGenerator T)
    (body : nat -> nat -> A -> A) (Pre Post : A -> Prop) (qx qy : nat) :
  (qx < width g)%nat -> (qy < height g)%nat ->
  (forall px py a, (px < width g)%nat -> (py < height g)%nat ->
                   ~ (px = qx /\ py = qy) -> Pre a -> Pre (body px py a)) ->
  (forall a, Pre a -> Post (body qx qy a)) ->
  (forall px py a, (px < width g)%nat -> (py < height g)%nat ->
                   ~ (px = qx /\ py = qy) -> Post a -> Post (body px py a)) ->
  forall a, Pre a -> Post (forColumns g body a).
Proof.
  intros Hqx Hqy Hpre Hq Hpost a Ha. unfold forColumns.
  apply (fold_left_once _ Pre Post _ qx); [apply seq_NoDup | apply in_seq; lia | | | | exact Ha].
  - intros a1 px Hpx Hne Ha1. apply in_seq in Hpx.
    apply fold_left_keeps; [exact Ha1|].
    intros a2 py Hpy Ha2. apply in_seq in Hpy. apply Hpre; auto; lia.
  - intros a1 Ha1.
    apply (fold_left_once (fun a py => body qx py a) Pre Post _ qy);
      [apply seq_NoDup | apply in_seq; lia | | | | exact Ha1].
    + intros a2 py Hpy Hne Ha2. apply in_seq in Hpy. apply Hpre; auto; lia.
    + exact Hq.
    + intros a2 py Hpy Hne Ha2. apply in_seq in Hpy. apply Hpost; auto; lia.
  - intros a1 px Hpx Hne Ha1. apply in_seq in Hpx.
    apply fold_left_keeps; [exact Ha1|].
    intros a2 py Hpy Ha2. apply in_seq in Hpy. apply Hpost; auto; lia.
Qed.

Lemma forRows_once {A : Type} (g : FractalGenerator T)
    (body : nat -> nat -> A -> A) (Pre Post : A -> Prop) (qx qy : nat) :
  (qx < width g)%nat -> (qy < height g)%nat ->
  (forall px py a, (px < width g)%nat -> (py < height g)%nat ->
                   ~ (px = qx /\ py = qy) -> Pre a -> Pre (body px py a)) ->
  (forall a, Pre a -> Post (body qx qy a)) ->
  (forall px py a, (px < width g)%nat -> (py < height g)%nat ->
                   ~ (px = qx /\ py = qy) -> Post a -> Post (body px py a)) ->
  forall a, Pre a -> Post (forRows g body a).
Proof.
  intros Hqx Hqy Hpre Hq Hpost a Ha. unfold forRows.
  apply (fold_left_once _ Pre Post _ qy); [apply seq_NoDup | apply in_seq; lia | | | | exact Ha].
  - intros a1 py Hpy Hne Ha1. apply in_seq in Hpy.
    apply fold_left_keeps; [exact Ha1|].
    intros a2 px Hpx Ha2. apply in_seq in Hpx. apply Hpre; auto; lia.
  - intros a1 Ha1.
    apply (fold_left_once (fun a px => body px qy a) Pre Post _ qx);
      [apply seq_NoDup | apply in_seq; lia | | | | exact Ha1].
    + intros a2 px Hpx Hne Ha2. apply in_seq in Hpx. apply Hpre; auto; lia.
    + exact Hq.
    + intros a2 px Hpx Hne Ha2. apply in_seq in Hpx. apply Hpost; auto; lia.
  - intros a1 py Hpy Hne Ha1. apply in_seq in Hpy.
    apply fold_left_keeps; [exact Ha1|].
    intros a2 px Hpx Ha2. apply in_seq in Hpx. apply Hpost; auto; lia.
Qed.

Lemma put_length (d : list T) (i : nat) (v : T) : length (put d i v) = length d.
Proof. apply list_set_length. Qed.

Lemma get_put_eq (d : list T) (i : nat) (v : T) :
  (i < length d)%nat -> get (put d i v) i = toUint8Clamp v.
Proof. intros H. unfold get, put. now apply nth_list_set_eq. Qed.

End PixelLocal.
